(** * InboxDetox: the rule / spam / suggestion engine of [background.js]

    A shallow embedding of the service worker's classification logic.

    Modelling conventions.
    - A JavaScript string is a [string]: the bytes of its UTF-8 encoding.
      Containment, prefixes and suffixes of well-formed strings are the
      same on bytes as on UTF-16 code units.
    - [String.prototype.toLowerCase] is the runtime's, not the program's.
      It is an operation of the class [Runtime], known through four facts
      only: it maps the empty string, and nothing else, to the empty
      string, and it neither adds nor removes an [@], a [!!] or a [??].
      Every general statement holds for every such function; the folding
      of the letters A-Z ([asciiLowerCase]) is the instance the worked
      examples run on.
    - The process-wide globals ([userSettings], [gmailLabels]), the two
      [chrome.storage] areas and the outside world are fields of one
      [State] record that every asynchronous function threads through.
    - The Gmail REST endpoints, the clock and [atob] are operations of the
      class [Browser]; the program is written against any instance of it.
      A call to [fetchGmailApi] either returns the parsed body, returns
      [null], or throws.
    - [chrome.storage] reads and writes always succeed.  Console output and
      desktop notifications are not part of the state. *)

From stdpp Require Import gmap strings list.
From Stdlib Require Import ZArith Ascii.

Local Open Scope Z_scope.

(** ** Strings *)

Module JsString.

Definition lower_ascii (c : ascii) : ascii :=
  let n := nat_of_ascii c in
  if ((65 <=? n) && (n <=? 90))%nat then ascii_of_nat (n + 32) else c.

(** [s.toLowerCase()] on ASCII text: the letters A-Z are folded. *)
Fixpoint asciiLowerCase (s : string) : string :=
  match s with
  | EmptyString => EmptyString
  | String c t => String (lower_ascii c) (asciiLowerCase t)
  end.

(** [s.startsWith(pre)] *)
Fixpoint startsWith (s pre : string) {struct pre} : bool :=
  match pre, s with
  | EmptyString, _ => true
  | String _ _, EmptyString => false
  | String a p, String b t => Ascii.eqb a b && startsWith t p
  end.

(** [s.includes(sub)] *)
Fixpoint includes (s sub : string) : bool :=
  startsWith s sub ||
  match s with
  | EmptyString => false
  | String _ t => includes t sub
  end.

(** [s.endsWith(suf)] *)
Fixpoint endsWith (s suf : string) : bool :=
  String.eqb s suf ||
  match s with
  | EmptyString => false
  | String _ t => endsWith t suf
  end.

(** [s.lastIndexOf(c)] for a one-character needle; [-1] when absent. *)
Fixpoint lastIndexOf (c : ascii) (s : string) : Z :=
  match s with
  | EmptyString => -1
  | String a t =>
      let r := lastIndexOf c t in
      if 0 <=? r then 1 + r
      else if Ascii.eqb a c then 0 else -1
  end.

(** [s.substring(start)] for [start >= 0]. *)
Fixpoint substringFrom (start : nat) (s : string) : string :=
  match start, s with
  | O, _ => s
  | S n, EmptyString => EmptyString
  | S n, String _ t => substringFrom n t
  end.

(** [s.replace(c, '')] with a string pattern: only the first occurrence
    is replaced. *)
Fixpoint removeFirst (c : ascii) (s : string) : string :=
  match s with
  | EmptyString => EmptyString
  | String a t => if Ascii.eqb a c then t else String a (removeFirst c t)
  end.

(** [s.replace(/c/g, d)] *)
Fixpoint replaceAll (c d : ascii) (s : string) : string :=
  match s with
  | EmptyString => EmptyString
  | String a t =>
      String (if Ascii.eqb a c then d else a) (replaceAll c d t)
  end.

(** [s.match(/[c]{2,}/g) || []]: the maximal runs of [c] of length at
    least two, left to right.  [run] is the run being scanned. *)
Fixpoint matchRuns (c : ascii) (run : string) (s : string) : list string :=
  let flush := if (2 <=? String.length run)%nat then [run] else [] in
  match s with
  | EmptyString => flush
  | String a t =>
      if Ascii.eqb a c then matchRuns c (String c run) t
      else flush ++ matchRuns c EmptyString t
  end.

(** Truthiness of a string value. *)
Definition truthy (s : string) : bool := negb (String.eqb s "").

(** [x || d] where [x] is a string or [undefined]. *)
Definition orElse (x : option string) (d : string) : string :=
  match x with
  | Some s => if truthy s then s else d
  | None => d
  end.

(** A value interpolated in a template literal. *)
Definition interpolate (x : option string) : string :=
  match x with
  | Some s => s
  | None => "undefined"
  end.

(** Character class of [\w], [.] and [-] as used in [/@([\w.-]+)/]. *)
Definition isDomainChar (c : ascii) : bool :=
  let n := nat_of_ascii c in
  ((48 <=? n) && (n <=? 57) || (65 <=? n) && (n <=? 90)
   || (97 <=? n) && (n <=? 122) || (n =? 95) || (n =? 46) || (n =? 45))%nat.

(** Longest prefix of [s] made of domain characters. *)
Fixpoint takeDomainChars (s : string) : string :=
  match s with
  | EmptyString => EmptyString
  | String a t =>
      if isDomainChar a then String a (takeDomainChars t) else EmptyString
  end.

(** [s.match(/@([\w.-]+)/)]: capture group 1 of the leftmost match. *)
Fixpoint matchAtDomain (s : string) : option string :=
  match s with
  | EmptyString => None
  | String a t =>
      if Ascii.eqb a "@" && truthy (takeDomainChars t)
      then Some (takeDomainChars t)
      else matchAtDomain t
  end.

End JsString.

Import JsString.

(** [s.toLowerCase()], as the JavaScript runtime provides it, with what
    the development relies on: lowercasing deletes nothing and leaves the
    occurrences of [@], [!!] and [??] where they are. *)
Class Runtime := {
  toLowerCase : string -> string;
  toLowerCase_truthy : forall s, truthy (toLowerCase s) = truthy s;
  toLowerCase_at : forall s, includes (toLowerCase s) "@" = includes s "@";
  toLowerCase_bangs : forall s, includes (toLowerCase s) "!!" = includes s "!!";
  toLowerCase_qmarks : forall s, includes (toLowerCase s) "??" = includes s "??"
}.

(** ** Data model *)

(** One entry of [userSettings.rules]: its [type], [value], [labelId]
    (absent until resolved) and [labelName]. *)
Record Rule := mkRule {
  r_type : string;
  r_value : string;
  r_labelId : option string;
  r_labelName : string
}.

Record Header := mkHeader { h_name : string; h_value : string }.

(** A MIME part: [body_data] is [p.body.data] when [p.body] exists. *)
Record Part := mkPart { mimeType : string; body_data : option string }.

(** A full Gmail message ([format=full]). *)
Record Message := mkMessage {
  msg_headers : list Header;
  msg_snippet : option string;
  msg_parts : option (list Part)
}.

Record Settings := mkSettings {
  rules : list Rule;
  spamKeywords : list string;
  spamSenderDomains : list string;
  autoCreateLabels : bool;
  processingInterval : nat;
  enableSpamDetection : bool;
  enablePatternDetection : bool;
  lastProcessedTimestamp : option string
}.

Definition SPAM_LABEL_NAME : string := "ExtensionSpam".
Definition MIN_EMAILS_FOR_PATTERN : nat := 3.

(** [message.payload.headers.find(h => h.name.toLowerCase() === name)?.value] *)
Definition headerValue {RT : Runtime} (name : string) (m : Message)
    : option string :=
  h_value <$> find (fun h => String.eqb (toLowerCase (h_name h)) name)
                   (msg_headers m).

(** ** Rule Matcher *)

Section Matcher.
Context {RT : Runtime}.
(** [atob]: [None] when decoding throws. *)
Variable atob : string -> option string.

Definition isTextPart (p : Part) : bool :=
  String.eqb (mimeType p) "text/plain" &&
  match body_data p with Some d => truthy d | None => false end.

Definition bodySnippet (m : Message) : string :=
  let snip := orElse (msg_snippet m) "" in
  match msg_parts m with
  | Some ps =>
      match find isTextPart ps with
      | Some p =>
          match atob (replaceAll "_" "/"
                        (replaceAll "-" "+" (default "" (body_data p)))) with
          | Some txt => snip +:+ " " +:+ txt
          | None => snip
          end
      | None => snip
      end
  | None => snip
  end.

Definition messageMatchesRule (m : Message) (rule : Rule) : bool :=
  let subject := orElse (headerValue "subject" m) "" in
  let sender := orElse (headerValue "from" m) "" in
  let body := bodySnippet m in
  if String.eqb (r_type rule) "sender" then
    includes (toLowerCase sender) (toLowerCase (r_value rule))
  else if String.eqb (r_type rule) "subject" then
    includes (toLowerCase subject) (toLowerCase (r_value rule))
  else if String.eqb (r_type rule) "keyword" then
    includes (toLowerCase subject) (toLowerCase (r_value rule)) ||
    includes (toLowerCase body) (toLowerCase (r_value rule))
  else false.
End Matcher.

(** ** Spam Classifier *)

(** [senderHeader.substring(senderHeader.lastIndexOf('@') + 1).replace('>', '')] *)
Definition senderDomainOf (senderHeader : string) : string :=
  removeFirst ">"
    (substringFrom (Z.to_nat (lastIndexOf "@" senderHeader + 1)) senderHeader).

(** The condition of the last [if] of [isSpam]. *)
Definition heuristic4 (senderDomain : string) : bool :=
  truthy senderDomain && negb (includes senderDomain ".")
  && negb (String.eqb senderDomain "localhost").

Definition isSpam {RT : Runtime} (userSettings : Settings) (m : Message)
    : bool :=
  if negb (enableSpamDetection userSettings) then false else
  let subject := orElse (toLowerCase <$> headerValue "subject" m) "" in
  let senderHeader := orElse (toLowerCase <$> headerValue "from" m) "" in
  let senderDomain := senderDomainOf senderHeader in
  if existsb (fun keyword => includes subject (toLowerCase keyword))
       (spamKeywords userSettings) then true
  else if existsb (fun domain => endsWith senderDomain (toLowerCase domain))
            (spamSenderDomains userSettings) then true
  else if (0 <? length (matchRuns "!" "" subject))%nat
          || (0 <? length (matchRuns "?" "" subject))%nat then true
  else if heuristic4 senderDomain then true
  else false.

(** ** The browser and the remote mail service *)

(** Outcome of one [fetchGmailApi] call. *)
Inductive ApiResult (A : Type) : Type :=
  | ApiOk (a : A)
  | ApiNull
  | ApiThrow.
Arguments ApiOk {A} a.
Arguments ApiNull {A}.
Arguments ApiThrow {A}.

(** Everything the service worker gets from outside, over a world [W]. *)
Class Browser (W : Type) := {
  atob : string -> option string;
  (** [GET /labels]: the [(id, name)] pairs of [data.labels]. *)
  gmail_listLabels : W -> ApiResult (list (string * string)) * W;
  (** [POST /labels]: the [(id, name)] of the new label. *)
  gmail_createLabel : string -> W -> ApiResult (string * string) * W;
  (** [GET /messages/<id>?format=full] *)
  gmail_getMessage : string -> W -> ApiResult Message * W;
  (** [POST /messages/<id>/modify] with the labels to add and to remove. *)
  gmail_modify : string -> list string -> list string -> W -> ApiResult unit * W;
  (** [GET /messages?q=is:unread]: the ids of [data.messages]. *)
  gmail_listUnread : W -> ApiResult (list string) * W;
  (** [Date.now()] in decimal. *)
  date_now : W -> string * W;
  (** [new Date().toISOString()] *)
  date_iso : W -> string * W
}.

(** ** Suggestions and program state *)

Inductive Status := pending | approved | rejected | failed_creation.

(** One entry of [suggestedLabels]; [sg_id], [sg_name] and [sg_status]
    are its [id], [name] and [status]. *)
Record Suggestion := mkSuggestion {
  sg_id : string;
  sg_name : string;
  basedOnDomain : string;
  basedOnLabel : option string;
  basedOnLabelId : string;
  sg_status : Status;
  createdLabelId : option string
}.

(** The object written by [saveSettings] under the key [userSettings]. *)
Record SavedSettings := mkSaved {
  sv_rules : list Rule;
  sv_spamKeywords : list string;
  sv_spamSenderDomains : list string;
  sv_autoCreateLabels : bool;
  sv_processingInterval : nat;
  sv_enableSpamDetection : bool;
  sv_enablePatternDetection : bool
}.

(** A JavaScript object with string keys, in insertion order. *)
Definition JsObject := list (string * string).

Fixpoint objSet (o : JsObject) (k v : string) : JsObject :=
  match o with
  | [] => [(k, v)]
  | (k', v') :: t =>
      if String.eqb k' k then (k, v) :: t else (k', v') :: objSet t k v
  end.

Definition objGet (o : JsObject) (k : string) : option string :=
  snd <$> find (fun kv => String.eqb (fst kv) k) o.

Record State (W : Type) := mkState {
  userSettings : Settings;
  gmailLabels : JsObject;
  (** [chrome.storage.local] *)
  domainLabelCounts : gmap string nat;
  suggestedLabels : list Suggestion;
  messageRule : gmap string (string * string);
  local_lastProcessedTimestamp : option string;
  (** [chrome.storage.sync] *)
  sync_userSettings : option SavedSettings;
  world : W
}.
Arguments mkState {W}.
Arguments userSettings {W}.
Arguments gmailLabels {W}.
Arguments domainLabelCounts {W}.
Arguments suggestedLabels {W}.
Arguments messageRule {W}.
Arguments local_lastProcessedTimestamp {W}.
Arguments sync_userSettings {W}.
Arguments world {W}.

Section Setters.
Context {W : Type}.

Definition set_userSettings (u : Settings) (s : State W) : State W :=
  mkState u (gmailLabels s) (domainLabelCounts s) (suggestedLabels s)
    (messageRule s) (local_lastProcessedTimestamp s) (sync_userSettings s)
    (world s).
Definition set_gmailLabels (g : JsObject) (s : State W) : State W :=
  mkState (userSettings s) g (domainLabelCounts s) (suggestedLabels s)
    (messageRule s) (local_lastProcessedTimestamp s) (sync_userSettings s)
    (world s).
Definition set_domainLabelCounts (c : gmap string nat) (s : State W) : State W :=
  mkState (userSettings s) (gmailLabels s) c (suggestedLabels s)
    (messageRule s) (local_lastProcessedTimestamp s) (sync_userSettings s)
    (world s).
Definition set_suggestedLabels (l : list Suggestion) (s : State W) : State W :=
  mkState (userSettings s) (gmailLabels s) (domainLabelCounts s) l
    (messageRule s) (local_lastProcessedTimestamp s) (sync_userSettings s)
    (world s).
Definition set_messageRule (r : gmap string (string * string)) (s : State W) : State W :=
  mkState (userSettings s) (gmailLabels s) (domainLabelCounts s)
    (suggestedLabels s) r (local_lastProcessedTimestamp s)
    (sync_userSettings s) (world s).
Definition set_local_lastProcessedTimestamp (t : option string) (s : State W) : State W :=
  mkState (userSettings s) (gmailLabels s) (domainLabelCounts s)
    (suggestedLabels s) (messageRule s) t (sync_userSettings s) (world s).
Definition set_sync_userSettings (v : option SavedSettings) (s : State W) : State W :=
  mkState (userSettings s) (gmailLabels s) (domainLabelCounts s)
    (suggestedLabels s) (messageRule s) (local_lastProcessedTimestamp s) v
    (world s).
Definition set_world (w : W) (s : State W) : State W :=
  mkState (userSettings s) (gmailLabels s) (domainLabelCounts s)
    (suggestedLabels s) (messageRule s) (local_lastProcessedTimestamp s)
    (sync_userSettings s) w.
End Setters.

Definition set_rules (rs : list Rule) (u : Settings) : Settings :=
  mkSettings rs (spamKeywords u) (spamSenderDomains u) (autoCreateLabels u)
    (processingInterval u) (enableSpamDetection u) (enablePatternDetection u)
    (lastProcessedTimestamp u).

Definition set_lastProcessedTimestamp (t : option string) (u : Settings) : Settings :=
  mkSettings (rules u) (spamKeywords u) (spamSenderDomains u)
    (autoCreateLabels u) (processingInterval u) (enableSpamDetection u)
    (enablePatternDetection u) t.

Definition set_status (st : Status) (g : Suggestion) : Suggestion :=
  mkSuggestion (sg_id g) (sg_name g) (basedOnDomain g) (basedOnLabel g)
    (basedOnLabelId g) st (createdLabelId g).

Definition set_createdLabelId (l : option string) (g : Suggestion) : Suggestion :=
  mkSuggestion (sg_id g) (sg_name g) (basedOnDomain g) (basedOnLabel g)
    (basedOnLabelId g) (sg_status g) l.

(** ** A state monad for the asynchronous functions *)

Definition M (W A : Type) : Type := State W -> A * State W.

Definition ret {W A} (a : A) : M W A := fun s => (a, s).
Definition bind {W A B} (c : M W A) (k : A -> M W B) : M W B :=
  fun s => let (a, s') := c s in k a s'.
Definition get {W} : M W (State W) := fun s => (s, s).
Definition modify {W} (f : State W -> State W) : M W unit := fun s => (tt, f s).
(** Run an operation of the outside world. *)
Definition call {W A} (op : W -> A * W) : M W A :=
  fun s => let (a, w) := op (world s) in (a, set_world w s).

Notation "'let*' x ':=' c 'in' k" := (bind c (fun x => k))
  (at level 10, x name, c at level 100, k at level 200).
Notation "'run' c 'in' k" := (bind c (fun _ => k))
  (at level 10, c at level 100, k at level 200).

(** ** Label Resolver *)

Section Program.
Context {RT : Runtime} {W : Type} `{Browser W}.

Definition getLabels : M W JsObject :=
  let* data := call gmail_listLabels in
  match data with
  | ApiOk labels =>
      let cache := foldl (fun o l => objSet o (fst l) (snd l)) [] labels in
      run modify (set_gmailLabels cache) in ret cache
  | ApiNull => run modify (set_gmailLabels []) in ret []
  | ApiThrow => ret []
  end.

Definition nameMatches (labelName : string) (kv : string * string) : bool :=
  String.eqb (toLowerCase (snd kv)) (toLowerCase labelName).

(** POST branch of [createLabelIfNeeded]. *)
Definition postLabel (labelName : string) : M W (option string) :=
  let* newLabel := call (gmail_createLabel labelName) in
  match newLabel with
  | ApiOk (id, name) =>
      if truthy id then
        run modify (fun s => set_gmailLabels (objSet (gmailLabels s) id name) s)
        in ret (Some id)
      else ret None
  | ApiNull => ret None
  | ApiThrow => ret None
  end.

Definition createLabelIfNeeded (labelName : string) : M W (option string) :=
  run getLabels in
  let* s := get in
  match find (nameMatches labelName) (gmailLabels s) with
  | Some (existingLabelId, _) =>
      if truthy existingLabelId then ret (Some existingLabelId)
      else postLabel labelName
  | None => postLabel labelName
  end.

Definition applyLabelsToMessage (messageId : string)
    (labelIdsToAdd labelIdsToRemove : list string) : M W unit :=
  match labelIdsToAdd, labelIdsToRemove with
  | [], [] => ret tt
  | _, _ =>
      let* _r := call (gmail_modify messageId labelIdsToAdd labelIdsToRemove) in
      ret tt
  end.

(** ** Pattern Learner *)

Definition countKey (senderDomain labelId : string) : string :=
  senderDomain +:+ ":::" +:+ labelId.

Definition sameName (name : string) (g : Suggestion) : bool :=
  String.eqb (toLowerCase (sg_name g)) (toLowerCase name).

Definition notSpamLabel (labels : JsObject) (id : string) : bool :=
  match objGet labels id with
  | Some name => negb (String.eqb name SPAM_LABEL_NAME)
  | None => true
  end.

Definition analyzeForPatterns (message : Message)
    (appliedLabelIds : list string) : M W unit :=
  match appliedLabelIds with
  | [] => ret tt
  | _ =>
  let senderHeader := orElse (headerValue "from" message) "" in
  match matchAtDomain senderHeader with
  | None => ret tt
  | Some senderDomain =>
  let* s := get in
  match find (notSpamLabel (gmailLabels s)) appliedLabelIds with
  | None => ret tt
  | Some primaryAppliedLabelId =>
  if negb (truthy primaryAppliedLabelId) then ret tt else
  let primaryAppliedLabelName := objGet (gmailLabels s) primaryAppliedLabelId in
  let key := countKey senderDomain primaryAppliedLabelId in
  let count := (default 0 (domainLabelCounts s !! key) + 1)%nat in
  run modify (set_domainLabelCounts (<[key := count]> (domainLabelCounts s))) in
  if (MIN_EMAILS_FOR_PATTERN <=? count)%nat then
    let suggestedLabelName :=
      interpolate primaryAppliedLabelName +:+ " - " +:+ senderDomain in
    let* s1 := get in
    let existingSuggestion :=
      find (sameName suggestedLabelName) (suggestedLabels s1) in
    let labelAlreadyExists :=
      existsb (fun kv => nameMatches suggestedLabelName kv) (gmailLabels s1) in
    match existingSuggestion, labelAlreadyExists with
    | None, false =>
        let* now := call date_now in
        let newSuggestion :=
          mkSuggestion ("sugg_" +:+ now) suggestedLabelName senderDomain
            primaryAppliedLabelName primaryAppliedLabelId pending None in
        modify (set_suggestedLabels (suggestedLabels s1 ++ [newSuggestion]))
    | _, _ => ret tt
    end
  else ret tt
  end
  end
  end.

(** ** Message Classifier *)

(** [rule.labelId || await createLabelIfNeeded(rule.labelName)] *)
Definition resolveTarget (rule : Rule) : M W (option string) :=
  match r_labelId rule with
  | Some id => if truthy id then ret (Some id)
               else createLabelIfNeeded (r_labelName rule)
  | None => createLabelIfNeeded (r_labelName rule)
  end.

(** [chrome.storage.local.set] of the [messageRule_<id>] record. *)
Definition recordRule (messageId id : string) (rule : Rule) (s : State W)
    : State W :=
  set_messageRule
    (<[messageId :=
         (id, orElse (objGet (gmailLabels s) id) (r_labelName rule))]>
       (messageRule s)) s.

(** The [for (const rule of userSettings.rules)] loop of [processEmail]:
    the label pushed on [labelsToAdd], if the loop reached its [break]. *)
Fixpoint applyRules (messageId : string) (fullMessage : Message)
    (rs : list Rule) : M W (option string) :=
  match rs with
  | [] => ret None
  | rule :: rest =>
      if messageMatchesRule atob fullMessage rule then
        let* targetLabelId := resolveTarget rule in
        match targetLabelId with
        | Some id =>
            run modify (recordRule messageId id rule) in ret (Some id)
        | None => applyRules messageId fullMessage rest
        end
      else applyRules messageId fullMessage rest
  end.

(** Steps 1 and 2 of [processEmail]: the pair [(labelsToAdd, appliedRule)]. *)
Definition classify (messageId : string) (fullMessage : Message)
    : M W (list string * bool) :=
  let* s := get in
  if isSpam (userSettings s) fullMessage then
    let* spamLabelId := createLabelIfNeeded SPAM_LABEL_NAME in
    match spamLabelId with
    | Some id => ret ([id], false)
    | None => ret ([], false)
    end
  else
    let* applied := applyRules messageId fullMessage (rules (userSettings s)) in
    match applied with
    | Some id => ret ([id], true)
    | None => ret ([], false)
    end.

(** The body of [processEmail] once the full message is at hand. *)
Definition processFetched (messageId : string) (full : Message) : M W unit :=
  let* c := classify messageId full in
  let labelsToAdd := fst c in
  let appliedRule := snd c in
  run (if (0 <? length labelsToAdd)%nat
       then applyLabelsToMessage messageId labelsToAdd ["UNREAD"]
       else ret tt) in
  let* s := get in
  if appliedRule && enablePatternDetection (userSettings s)
  then analyzeForPatterns full labelsToAdd
  else ret tt.

Definition processEmail (messageId : string) : M W unit :=
  let* fullMessage := call (gmail_getMessage messageId) in
  match fullMessage with
  | ApiOk full => processFetched messageId full
  | ApiNull => ret tt
  | ApiThrow => ret tt
  end.

(** ** Settings *)

(** [chrome.storage.sync] holds what [saveSettings] wrote, if anything. *)
Definition loadSettings : M W unit :=
  modify (fun s =>
    match sync_userSettings s with
    | Some v =>
        set_userSettings
          (mkSettings (sv_rules v) (sv_spamKeywords v)
             (sv_spamSenderDomains v) (sv_autoCreateLabels v)
             (sv_processingInterval v) (sv_enableSpamDetection v)
             (sv_enablePatternDetection v)
             (lastProcessedTimestamp (userSettings s))) s
    | None => s
    end).

Definition settingsToSave (u : Settings) : SavedSettings :=
  mkSaved (rules u) (spamKeywords u) (spamSenderDomains u)
    (autoCreateLabels u) (processingInterval u) (enableSpamDetection u)
    (enablePatternDetection u).

Definition saveSettings : M W unit :=
  modify (fun s =>
    set_sync_userSettings (Some (settingsToSave (userSettings s))) s).

(** ** Processing Cycle *)

Fixpoint forEach {A} (f : A -> M W unit) (l : list A) : M W unit :=
  match l with
  | [] => ret tt
  | x :: t => run f x in forEach f t
  end.

Definition recordTimestamp : M W unit :=
  let* t := call date_iso in
  modify (fun s =>
    set_local_lastProcessedTimestamp (Some t)
      (set_userSettings
         (set_lastProcessedTimestamp (Some t) (userSettings s)) s)).

Definition processUnreadEmails : M W unit :=
  run loadSettings in
  run getLabels in
  let* data := call gmail_listUnread in
  match data with
  | ApiOk messages =>
      run forEach processEmail (take 10 messages) in
      recordTimestamp
  | ApiNull => recordTimestamp
  | ApiThrow => ret tt
  end.

(** ** Suggestion Store: the message handlers *)

Inductive Response :=
  | SuccessSuggestion (suggestion : Suggestion)
  | SuccessId (suggestionId : string)
  | Failure (message : string).

Definition success (r : Response) : bool :=
  match r with Failure _ => false | _ => true end.

Definition hasId (id : string) (g : Suggestion) : bool := String.eqb (sg_id g) id.

(** Index of the first element that satisfies [p]. *)
Fixpoint findIndex {A} (p : A -> bool) (l : list A) : option nat :=
  match l with
  | [] => None
  | x :: t => if p x then Some O else S <$> findIndex p t
  end.

(** The approval branch shared by the [approveSuggestion] handler and the
    notification button: the suggestion after the label was requested. *)
Definition approve (suggestion : Suggestion) : M W Suggestion :=
  let* newLabelId := createLabelIfNeeded (sg_name suggestion) in
  match newLabelId with
  | Some id =>
      let suggestion' :=
        set_createdLabelId (Some id) (set_status approved suggestion) in
      let* s := get in
      run (if autoCreateLabels (userSettings s) then
             run modify (fun s =>
               set_userSettings
                 (set_rules
                    (rules (userSettings s) ++
                     [mkRule "sender" ("@" +:+ basedOnDomain suggestion)
                        (Some id) (sg_name suggestion)])
                    (userSettings s)) s)
             in saveSettings
           else ret tt)
      in ret suggestion'
  | None => ret (set_status failed_creation suggestion)
  end.

Definition approveSuggestion (suggestionId : string) : M W Response :=
  let* s := get in
  let suggested := suggestedLabels s in
  match findIndex (hasId suggestionId) suggested with
  | Some i =>
      match suggested !! i with
      | Some suggestion =>
          let* suggestion' := approve suggestion in
          run modify (set_suggestedLabels (<[i := suggestion']> suggested)) in
          ret (SuccessSuggestion suggestion')
      | None => ret (Failure "Suggestion not found.")
      end
  | None => ret (Failure "Suggestion not found.")
  end.

Definition rejectSuggestion (suggestionId : string) : M W Response :=
  let* s := get in
  let suggested := suggestedLabels s in
  match findIndex (hasId suggestionId) suggested with
  | Some suggestionIndex =>
      run modify (set_suggestedLabels
                    (alter (set_status rejected) suggestionIndex suggested))
      in ret (SuccessId suggestionId)
  | None => ret (Failure "Suggestion not found.")
  end.

(** [chrome.notifications.onButtonClicked] for a notification named
    [suggestion_<suggestionId>]. *)
Definition onButtonClicked (suggestionId : string) (buttonIndex : nat)
    : M W unit :=
  let* s := get in
  let suggested := suggestedLabels s in
  match findIndex (hasId suggestionId) suggested with
  | Some i =>
      match suggested !! i with
      | Some suggestion =>
          let* suggestion' :=
            match buttonIndex with
            | 0%nat => approve suggestion
            | 1%nat => ret (set_status rejected suggestion)
            | _ => ret suggestion
            end in
          modify (set_suggestedLabels (<[i := suggestion']> suggested))
      | None => ret tt
      end
  | None => ret tt
  end.

End Program.

(** ** Specification vocabulary *)

(** [sub] occurs in [s] as a contiguous substring. *)
Definition contains (s sub : string) : Prop :=
  exists pre post, s = pre +:+ sub +:+ post.

(** [sub] occurs in [s] up to letter case: lowercased, [s] contains
    lowercased [sub] as a substring. *)
Definition containsCI {RT : Runtime} (s sub : string) : Prop :=
  contains (toLowerCase s) (toLowerCase sub).

Definition hasSuffix (s suf : string) : Prop := exists pre, s = pre +:+ suf.

(** The part of [s] after its last [c]; all of [s] when [c] is absent. *)
Fixpoint afterLast (c : ascii) (s : string) : string :=
  match s with
  | EmptyString => EmptyString
  | String a t =>
      if includes t (String c EmptyString) then afterLast c t
      else if Ascii.eqb a c then t else String a t
  end.

(** [s] without its final character when that character is [c]. *)
Fixpoint stripTrailing (c : ascii) (s : string) : string :=
  match s with
  | EmptyString => EmptyString
  | String a EmptyString => if Ascii.eqb a c then EmptyString else s
  | String a t => String a (stripTrailing c t)
  end.

(** Sender domain as the specification words it: the substring after the
    last [@], trailing [>] stripped. *)
Definition domainTrailingStripped (senderHeader : string) : string :=
  stripTrailing ">" (afterLast "@" senderHeader).

(** Sender domain with the first [>] removed instead. *)
Definition domainFirstRemoved (senderHeader : string) : string :=
  removeFirst ">" (afterLast "@" senderHeader).

Definition subjectHeader {RT : Runtime} (m : Message) : string :=
  orElse (headerValue "subject" m) "".
Definition senderHeader {RT : Runtime} (m : Message) : string :=
  orElse (headerValue "from" m) "".

(** The four heuristics of the Spam Classifier, over a given way [dom] of
    extracting the sender domain from the lowercased sender header. *)
Definition spamHeuristics {RT : Runtime} (dom : string -> string)
    (u : Settings) (m : Message) : Prop :=
  let domain := dom (toLowerCase (senderHeader m)) in
  (exists k, In k (spamKeywords u) /\ containsCI (subjectHeader m) k)
  \/ (exists d, In d (spamSenderDomains u) /\ hasSuffix domain (toLowerCase d))
  \/ (contains (subjectHeader m) "!!" \/ contains (subjectHeader m) "??")
  \/ (domain <> "" /\ ~ contains domain "." /\ domain <> "localhost").

Section Vocabulary.
Context {RT : Runtime} {W : Type} `{Browser W}.

(** [pres R c s]: running [c] from [s] ends in a state related to [s]. *)
Definition pres {A} (R : State W -> State W -> Prop) (c : M W A)
    (s : State W) : Prop :=
  R s (c s).2.

(** Relations that survive a move of the outside world and a change of
    the label cache: the footprint of the Label Resolver. *)
Class LabelFrame (R : State W -> State W -> Prop) := {
  frame_refl : forall s, R s s;
  frame_trans : forall s1 s2 s3, R s1 s2 -> R s2 s3 -> R s1 s3;
  frame_world : forall w s, R s (set_world w s);
  frame_labels : forall g s, R s (set_gmailLabels g s)
}.

(** Relations that moreover survive the writes of one message being
    processed: the rule record, the counters, a new suggestion whose
    name no stored suggestion has. *)
Class CycleFrame (R : State W -> State W -> Prop) := {
  frame_label :: LabelFrame R;
  frame_messageRule : forall r s, R s (set_messageRule r s);
  frame_counts : forall c s, R s (set_domainLabelCounts c s);
  frame_suggest : forall g s,
    find (sameName (sg_name g)) (suggestedLabels s) = None ->
    sg_status g = pending ->
    R s (set_suggestedLabels (suggestedLabels s ++ [g]) s)
}.

(** Both copies of the completion timestamp are as before. *)
Definition sameTimestamp (s s' : State W) : Prop :=
  lastProcessedTimestamp (userSettings s')
    = lastProcessedTimestamp (userSettings s)
  /\ local_lastProcessedTimestamp s' = local_lastProcessedTimestamp s.

(** Everything but the label cache and the outside world is as before. *)
Definition sameStore (s s' : State W) : Prop :=
  userSettings s' = userSettings s
  /\ domainLabelCounts s' = domainLabelCounts s
  /\ suggestedLabels s' = suggestedLabels s
  /\ messageRule s' = messageRule s
  /\ local_lastProcessedTimestamp s' = local_lastProcessedTimestamp s
  /\ sync_userSettings s' = sync_userSettings s.

(** [skips id m rs s s']: the loop ran through all of [rs] from [s]
    without reaching its [break] and ended in [s']: each rule either did
    not match or matched and got no label from the resolver. *)
Inductive skips (messageId : string) (m : Message)
    : list Rule -> State W -> State W -> Prop :=
  | skips_nil s : skips messageId m [] s s
  | skips_nomatch rule rest s s' :
      messageMatchesRule atob m rule = false ->
      skips messageId m rest s s' ->
      skips messageId m (rule :: rest) s s'
  | skips_unresolved rule rest s s1 s' :
      messageMatchesRule atob m rule = true ->
      resolveTarget rule s = (None, s1) ->
      skips messageId m rest s1 s' ->
      skips messageId m (rule :: rest) s s'.

(** No stored suggestion and no cached label has this name, up to case. *)
Definition nameUnused (name : string) (s : State W) : Prop :=
  (forall g, In g (suggestedLabels s) ->
     toLowerCase (sg_name g) <> toLowerCase name)
  /\ (forall id l, In (id, l) (gmailLabels s) ->
        toLowerCase l <> toLowerCase name).

Definition nameUnusedb (name : string) (s : State W) : bool :=
  match find (sameName name) (suggestedLabels s) with
  | Some _ => false
  | None => negb (existsb (nameMatches name) (gmailLabels s))
  end.

(** The settings after [userSettings.rules.push(rule); saveSettings()]. *)
Definition withRule (rule : Rule) (s : State W) : State W :=
  let u := set_rules (rules (userSettings s) ++ [rule]) (userSettings s) in
  set_sync_userSettings (Some (settingsToSave u)) (set_userSettings u s).

(** *** Uniqueness of suggestion names *)

Definition lowerNames (l : list Suggestion) : list string :=
  (fun g => toLowerCase (sg_name g)) <$> l.

(** No two stored suggestions have the same name up to case. *)
Definition uniqueNames (s : State W) : Prop :=
  NoDup (lowerNames (suggestedLabels s)).

Definition active (g : Suggestion) : bool :=
  match sg_status g with
  | pending | approved => true
  | rejected | failed_creation => false
  end.

(** At most one suggestion of any given name is pending or approved. *)
Definition atMostOneActive (s : State W) : Prop :=
  forall name,
    (length (List.filter (fun g => sameName name g && active g)
               (suggestedLabels s)) <= 1)%nat.

(** What can happen to the state: the Pattern Learner observes a
    message, a suggestion is approved or rejected through the message
    handlers or the notification buttons, a processing cycle runs, or
    something else happens that leaves the stored suggestions alone. *)
Inductive step : State W -> State W -> Prop :=
  | step_learn m ids s : step s (analyzeForPatterns m ids s).2
  | step_approve id s : step s (approveSuggestion id s).2
  | step_reject id s : step s (rejectSuggestion id s).2
  | step_button id b s : step s (onButtonClicked id b s).2
  | step_cycle s : step s (processUnreadEmails s).2
  | step_other s s' : suggestedLabels s' = suggestedLabels s -> step s s'.

Definition reachable (s : State W) : Prop :=
  exists s0, suggestedLabels s0 = [] /\ rtc step s0 s.

(** Uniqueness of names, once it holds, still holds afterwards. *)
Definition keepsUnique (s s' : State W) : Prop :=
  uniqueNames s -> uniqueNames s'.

End Vocabulary.

(** ** Settings handlers *)

(** [request.settings] of a [saveSettings] message: the keys it carries. *)
Record SettingsPatch := mkPatch {
  p_rules : option (list Rule);
  p_spamKeywords : option (list string);
  p_spamSenderDomains : option (list string);
  p_autoCreateLabels : option bool;
  p_processingInterval : option nat;
  p_enableSpamDetection : option bool;
  p_enablePatternDetection : option bool;
  p_lastProcessedTimestamp : option (option string)
}.

(** [{ ...userSettings, ...request.settings }] *)
Definition mergeSettings (u : Settings) (p : SettingsPatch) : Settings :=
  mkSettings (default (rules u) (p_rules p))
    (default (spamKeywords u) (p_spamKeywords p))
    (default (spamSenderDomains u) (p_spamSenderDomains p))
    (default (autoCreateLabels u) (p_autoCreateLabels p))
    (default (processingInterval u) (p_processingInterval p))
    (default (enableSpamDetection u) (p_enableSpamDetection p))
    (default (enablePatternDetection u) (p_enablePatternDetection p))
    (default (lastProcessedTimestamp u) (p_lastProcessedTimestamp p)).

Section Handlers.
Context {RT : Runtime} {W : Type} `{Browser W}.

(** The [saveSettings] message; the alarm it may reschedule is not part
    of the state. *)
Definition saveSettingsHandler (patch : SettingsPatch) : M W bool :=
  run modify (fun s =>
    set_userSettings (mergeSettings (userSettings s) patch) s) in
  run saveSettings in
  ret true.

(** The [getSettings] message: the settings and the labels it answers. *)
Definition getSettingsHandler : M W (Settings * JsObject) :=
  run loadSettings in
  let* s := get in
  let* labels := getLabels in
  ret (userSettings s, labels).

End Handlers.

(** ** Further vocabulary *)

(** The cache [data.labels.forEach(...)] builds in [getLabels], starting
    from [acc]. *)
Definition refreshed (acc : JsObject) (labels : list (string * string))
    : JsObject :=
  foldl (fun o l => objSet o (fst l) (snd l)) acc labels.

(** Every character of [s] satisfies [p]. *)
Fixpoint allChars (p : ascii -> bool) (s : string) : bool :=
  match s with
  | EmptyString => true
  | String a t => p a && allChars p t
  end.

(** What may follow a maximal run of domain characters: nothing, or a
    character outside the class. *)
Definition endsRun (post : string) : Prop :=
  match post with
  | EmptyString => True
  | String c _ => isDomainChar c = false
  end.

Section MoreVocabulary.
Context {RT : Runtime} {W : Type} `{Browser W}.

(** Relations that survive what the rule loop writes: the label cache,
    the outside world and the rule record. *)
Class RuleFrame (R : State W -> State W -> Prop) := {
  rule_label :: LabelFrame R;
  rule_messageRule : forall r s, R s (set_messageRule r s)
}.

(** The in-memory settings and their saved copy are as before. *)
Definition sameSettings (s s' : State W) : Prop :=
  userSettings s' = userSettings s
  /\ sync_userSettings s' = sync_userSettings s.

(** The settings are as before, the completion timestamp aside. *)
Definition sameConfig (s s' : State W) : Prop :=
  settingsToSave (userSettings s') = settingsToSave (userSettings s).

(** No counter is lower than before and the stored suggestions are still
    there, unchanged, at the head of the list. *)
Definition grows (s s' : State W) : Prop :=
  (forall key, (default 0 (domainLabelCounts s !! key)
                <= default 0 (domainLabelCounts s' !! key))%nat)
  /\ suggestedLabels s `prefix_of` suggestedLabels s'.

(** Settings, counters and suggestions are as before. *)
Definition nothingLearned (s s' : State W) : Prop :=
  userSettings s' = userSettings s
  /\ domainLabelCounts s' = domainLabelCounts s
  /\ suggestedLabels s' = suggestedLabels s.

End MoreVocabulary.

(** A mail service that counts the [GET /messages/<id>] requests made to
    it, on top of any other. *)
Definition counting {W : Type} (B : Browser W) : Browser (W * nat) := {|
  atob := @atob W B;
  gmail_listLabels := fun w =>
    ((@gmail_listLabels W B w.1).1, ((@gmail_listLabels W B w.1).2, w.2));
  gmail_createLabel := fun name w =>
    ((@gmail_createLabel W B name w.1).1,
     ((@gmail_createLabel W B name w.1).2, w.2));
  gmail_getMessage := fun id w =>
    ((@gmail_getMessage W B id w.1).1,
     ((@gmail_getMessage W B id w.1).2, S w.2));
  gmail_modify := fun id add rem w =>
    ((@gmail_modify W B id add rem w.1).1,
     ((@gmail_modify W B id add rem w.1).2, w.2));
  gmail_listUnread := fun w =>
    ((@gmail_listUnread W B w.1).1, ((@gmail_listUnread W B w.1).2, w.2));
  date_now := fun w => ((@date_now W B w.1).1, ((@date_now W B w.1).2, w.2));
  date_iso := fun w => ((@date_iso W B w.1).1, ((@date_iso W B w.1).2, w.2))
|}.

(** Number of message requests made so far. *)
Definition fetches {W : Type} (s : State (W * nat)) : nat := (world s).2.

(** Running [c] makes at most [n] message requests. *)
Definition within {W A : Type} (n : nat) (c : M (W * nat) A) : Prop :=
  forall s, (fetches s <= fetches (c s).2 <= fetches s + n)%nat.

(** A request made to the outside. *)
Inductive Event :=
  | EvListLabels
  | EvCreateLabel (name : string)
  | EvGetMessage (id : string)
  | EvModify (id : string) (add remove : list string)
  | EvListUnread
  | EvNow
  | EvIso.

(** A mail service that logs every request made to it, in order, on top
    of any other. *)
Definition tracing {W : Type} (B : Browser W) : Browser (W * list Event) := {|
  atob := @atob W B;
  gmail_listLabels := fun w =>
    ((@gmail_listLabels W B w.1).1,
     ((@gmail_listLabels W B w.1).2, w.2 ++ [EvListLabels]));
  gmail_createLabel := fun name w =>
    ((@gmail_createLabel W B name w.1).1,
     ((@gmail_createLabel W B name w.1).2, w.2 ++ [EvCreateLabel name]));
  gmail_getMessage := fun id w =>
    ((@gmail_getMessage W B id w.1).1,
     ((@gmail_getMessage W B id w.1).2, w.2 ++ [EvGetMessage id]));
  gmail_modify := fun id add rem w =>
    ((@gmail_modify W B id add rem w.1).1,
     ((@gmail_modify W B id add rem w.1).2, w.2 ++ [EvModify id add rem]));
  gmail_listUnread := fun w =>
    ((@gmail_listUnread W B w.1).1,
     ((@gmail_listUnread W B w.1).2, w.2 ++ [EvListUnread]));
  date_now := fun w =>
    ((@date_now W B w.1).1, ((@date_now W B w.1).2, w.2 ++ [EvNow]));
  date_iso := fun w =>
    ((@date_iso W B w.1).1, ((@date_iso W B w.1).2, w.2 ++ [EvIso]))
|}.

(** The requests logged so far. *)
Definition requests {W : Type} (s : State (W * list Event)) : list Event :=
  (world s).2.

(** From [s] to [s'] only requests that satisfy [ok] were made. *)
Definition asksOnly {W : Type} (ok : Event -> Prop)
    (s s' : State (W * list Event)) : Prop :=
  exists evs, requests s' = requests s ++ evs /\ Forall ok evs.

(** The requests one message [messageId] may cause, given the label names
    [names] of the rules: listing labels, creating the spam label or a
    rule's label, fetching that message, adding one label to it while
    removing [UNREAD], and reading the clock. *)
Definition okForMessage (messageId : string) (names : list string)
    (ev : Event) : Prop :=
  match ev with
  | EvListLabels | EvNow => True
  | EvCreateLabel n => n = SPAM_LABEL_NAME \/ In n names
  | EvGetMessage id => id = messageId
  | EvModify id add remove =>
      id = messageId /\ length add = 1%nat /\ remove = ["UNREAD"]
  | EvListUnread | EvIso => False
  end.

(** The requests an approval of [id] may cause, given the stored
    suggestions: listing labels and creating a label named after a
    suggestion with that id. *)
Definition okForApproval (id : string) (stored : list Suggestion)
    (ev : Event) : Prop :=
  match ev with
  | EvListLabels => True
  | EvCreateLabel n => exists g, In g stored /\ sg_id g = id /\ sg_name g = n
  | _ => False
  end.

(** ** Scenarios *)

Module Scenario.

Definition message (sender subject : string) : Message :=
  mkMessage [mkHeader "From" sender; mkHeader "Subject" subject] None None.

(** Spam settings with no keyword and no suspicious domain. *)
Definition plainSettings (rs : list Rule) : Settings :=
  mkSettings rs [] [] true 5 true true None.

(** A sender whose first [>] is not the last character. *)
Definition oddSender : Message := message "bob@local>host" "hello".

(** A sender header without [@]. *)
Definition bareSender : Message := message "Mailer-Daemon" "returned mail".

(** A scripted mail service: the labels it holds, whether it accepts
    new labels, its messages, the answer to the unread query, the time. *)
Record Mailbox := mkMailbox {
  remoteLabels : list (string * string);
  creationWorks : bool;
  mail : list (string * Message);
  unreadIds : ApiResult (list string);
  clock : string
}.

Definition addLabel (name : string) (w : Mailbox) : Mailbox :=
  mkMailbox (remoteLabels w ++ [("Label_" +:+ name, name)]) (creationWorks w)
    (mail w) (unreadIds w) (clock w).

#[global] Instance mailbox_browser : Browser Mailbox := {
  atob := fun _ => None;
  gmail_listLabels := fun w => (ApiOk (remoteLabels w), w);
  gmail_createLabel := fun name w =>
    if creationWorks w
    then (ApiOk ("Label_" +:+ name, name), addLabel name w)
    else (ApiThrow, w);
  gmail_getMessage := fun id w =>
    (match find (fun e => String.eqb (fst e) id) (mail w) with
     | Some e => ApiOk (snd e)
     | None => ApiThrow
     end, w);
  gmail_modify := fun _ _ _ w => (ApiOk tt, w);
  gmail_listUnread := fun w => (unreadIds w, w);
  date_now := fun w => ("1700000000000", w);
  date_iso := fun w => (clock w, w)
}.

Definition initial (u : Settings) (w : Mailbox) : State Mailbox :=
  mkState u [] ∅ [] ∅ None None w.

(** A service that refuses to create labels, and one that accepts. *)
Definition readOnly : Mailbox := mkMailbox [] false [] (ApiOk []) "t0".
Definition writable : Mailbox := mkMailbox [] true [] (ApiOk []) "t0".

(** A service that already holds one label. *)
Definition holding (id name : string) : Mailbox :=
  mkMailbox [(id, name)] true [] (ApiOk []) "t0".

(** Two rules that both match [invoice]; only the second has a stored
    label id. *)
Definition shopRule : Rule := mkRule "sender" "@shop.example" None "Shopping".
Definition invoiceRule : Rule :=
  mkRule "subject" "invoice" (Some "Label_7") "Finance".
Definition invoice : Message :=
  message "Orders <orders@shop.example>" "Your Invoice".

(** A user rule whose target is the label the Spam Classifier uses, the
    label cache that knows it, and two earlier observations. *)
Definition spamTarget : State Mailbox :=
  mkState (plainSettings [mkRule "sender" "@shop.example" (Some "Label_9")
                            "ExtensionSpam"])
    [("Label_9", "ExtensionSpam")]
    {[ "shop.example:::Label_9" := 2%nat ]} [] ∅ None None
    (holding "Label_9" "ExtensionSpam").

(** Two earlier observations of [shop.example] under the label Finance. *)
Definition twoSeen : State Mailbox :=
  mkState (plainSettings [invoiceRule]) [("Label_7", "Finance")]
    {[ "shop.example:::Label_7" := 2%nat ]} [] ∅ None None
    (holding "Label_7" "Finance").

(** A store holding one decided suggestion of each kind and a pending
    one. *)
Definition suggestion (id : string) (st : Status) : Suggestion :=
  mkSuggestion id ("Finance - " +:+ id +:+ ".example") (id +:+ ".example")
    (Some "Finance") "Label_7" st None.

Definition decidedStore : State Mailbox :=
  mkState (plainSettings [invoiceRule]) [("Label_7", "Finance")] ∅
    [suggestion "a" rejected; suggestion "b" approved;
     suggestion "c" pending]
    ∅ None None (holding "Label_7" "Finance").

(** A message that trips the punctuation heuristic and matches a rule. *)
Definition prize : Message :=
  message "Orders <orders@shop.example>" "You Won!!! Claim Now".

(** Three unread messages from one billing address, a rule that files
    them under Finance, and the mail service that serves them. *)
Definition bill (subject : string) : Message :=
  message "Alerts <alerts@billing.example.com>" subject.
Definition financeRule : Rule := mkRule "sender" "alerts@" None "Finance".
Definition billing : State Mailbox :=
  initial (plainSettings [financeRule])
    (mkMailbox [] true
       [("m1", bill "Invoice 1"); ("m2", bill "Invoice 2");
        ("m3", bill "Invoice 3")]
       (ApiOk ["m1"; "m2"; "m3"]) "2024-01-01T00:00:00.000Z").

(** Twelve unread messages listed by a service that counts the message
    requests it gets. *)
Definition crowded : State (Mailbox * nat) :=
  mkState (plainSettings []) [] ∅ [] ∅ None None
    (mkMailbox [] true []
       (ApiOk ["1"; "2"; "3"; "4"; "5"; "6"; "7"; "8"; "9"; "10"; "11"; "12"])
       "t0", 0%nat).

(** A browser that is signed out: no request has a token to send, so
    every [fetchGmailApi] returns [null].  The world is the clock. *)
Definition signedOut_browser : Browser string := {|
  atob := fun _ => None;
  gmail_listLabels := fun w => (ApiNull, w);
  gmail_createLabel := fun _ w => (ApiNull, w);
  gmail_getMessage := fun _ w => (ApiNull, w);
  gmail_modify := fun _ _ _ w => (ApiNull, w);
  gmail_listUnread := fun w => (ApiNull, w);
  date_now := fun w => ("1700000000000", w);
  date_iso := fun w => (w, w)
|}.

(** No cycle has completed yet and the user is signed out. *)
Definition signedOut : State string :=
  mkState (plainSettings []) [] ∅ [] ∅ None None "2024-01-01T00:00:00.000Z".

End Scenario.

(** * Verification *)

(** ** Strings *)

Section StringFacts.
Implicit Types (s t sub pre post : string) (c : ascii).

Lemma append_nil_l s : "" +:+ s = s.
Proof. reflexivity. Qed.

Lemma append_cons c s t : String c s +:+ t = String c (s +:+ t).
Proof. reflexivity. Qed.

Lemma append_nil_r s : s +:+ "" = s.
Proof.
  induction s as [|a s IH]; [done | by rewrite append_cons, IH].
Qed.

Lemma append_assoc s t u : (s +:+ t) +:+ u = s +:+ t +:+ u.
Proof.
  induction s as [|a s IH]; [done | by rewrite !append_cons, IH].
Qed.

Lemma ascii_eqb_true c d : Ascii.eqb c d = true <-> c = d.
Proof. apply Ascii.eqb_eq. Qed.

Lemma startsWith_spec s pre :
  startsWith s pre = true <-> exists post, s = pre +:+ post.
Proof.
  revert s. induction pre as [|a p IH]; intros s; simpl.
  - split; [intros _; by exists s | done].
  - destruct s as [|b t].
    + split; [done | intros [post Hp]; discriminate].
    + rewrite andb_true_iff, ascii_eqb_true, IH. split.
      * intros [-> [post ->]]. by exists post.
      * intros [post Hp]. rewrite append_cons in Hp.
        injection Hp as -> ->. eauto.
Qed.

Lemma includes_contains s sub : includes s sub = true <-> contains s sub.
Proof.
  unfold contains. induction s as [|a t IH].
  - simpl. rewrite orb_false_r, startsWith_spec. split.
    + intros [post Hp]. by exists "", post.
    + intros [pre [post Hp]]. destruct pre; [by exists post | discriminate].
  - change (includes (String a t) sub)
      with (startsWith (String a t) sub || includes t sub).
    rewrite orb_true_iff, startsWith_spec, IH. split.
    + intros [[post Hp] | [pre [post Hp]]].
      * by exists "", post.
      * exists (String a pre), post. by rewrite append_cons, Hp.
    + intros [pre [post Hp]]. destruct pre as [|b pre].
      * left. by exists post.
      * right. rewrite append_cons in Hp. injection Hp as -> ->. eauto.
Qed.

Lemma includes_false s sub : includes s sub = false <-> ~ contains s sub.
Proof.
  rewrite <- includes_contains. destruct (includes s sub); split; done.
Qed.

Lemma endsWith_spec s suf : endsWith s suf = true <-> hasSuffix s suf.
Proof.
  unfold hasSuffix. induction s as [|a t IH].
  - change (endsWith "" suf) with (String.eqb "" suf || false).
    rewrite orb_false_r, String.eqb_eq. split.
    + intros <-. by exists "".
    + intros [pre Hp]. destruct pre; [done | discriminate].
  - change (endsWith (String a t) suf)
      with (String.eqb (String a t) suf || endsWith t suf).
    rewrite orb_true_iff, String.eqb_eq, IH. split.
    + intros [<- | [pre ->]]; [by exists "" | by exists (String a pre)].
    + intros [pre Hp]. destruct pre as [|b pre]; [by left |].
      right. rewrite append_cons in Hp. injection Hp as -> ->. eauto.
Qed.

Lemma lower_ascii_fixes c d :
  (nat_of_ascii d < 65 \/ 90 < nat_of_ascii d)%nat ->
  (nat_of_ascii d < 97 \/ 122 < nat_of_ascii d)%nat ->
  lower_ascii c = d <-> c = d.
Proof.
  intros Hu Hl. unfold lower_ascii.
  destruct ((65 <=? nat_of_ascii c)%nat && (nat_of_ascii c <=? 90)%nat) eqn:E.
  - apply andb_true_iff in E as [E1%Nat.leb_le E2%Nat.leb_le]. split.
    + intros <-. rewrite nat_ascii_embedding in Hl; lia.
    + intros ->. lia.
  - done.
Qed.

Lemma lower_ascii_eqb a c :
  (forall a, lower_ascii a = c <-> a = c) ->
  Ascii.eqb c (lower_ascii a) = Ascii.eqb c a.
Proof.
  intros Hc. destruct (Ascii.eqb_spec c a) as [->|Hne].
  - rewrite (proj2 (Hc a) eq_refl). apply Ascii.eqb_refl.
  - apply Ascii.eqb_neq. intros Ha. symmetry in Ha.
    apply (proj1 (Hc a)) in Ha. congruence.
Qed.

Lemma asciiLowerCase_startsWith_char s c :
  (forall a, lower_ascii a = c <-> a = c) ->
  startsWith (asciiLowerCase s) (String c "") = startsWith s (String c "").
Proof.
  intros Hc. destruct s as [|a t]; [done |]. simpl.
  by rewrite (lower_ascii_eqb _ _ Hc).
Qed.

Lemma asciiLowerCase_includes_char s c :
  (forall a, lower_ascii a = c <-> a = c) ->
  includes (asciiLowerCase s) (String c "") = includes s (String c "").
Proof.
  intros Hc. induction s as [|a t IH]; [done |].
  change (includes (String a t) (String c ""))
    with (startsWith (String a t) (String c "") || includes t (String c "")).
  rewrite <- IH, <- (asciiLowerCase_startsWith_char _ _ Hc). done.
Qed.

Lemma asciiLowerCase_includes_pair s c :
  (forall a, lower_ascii a = c <-> a = c) ->
  includes (asciiLowerCase s) (String c (String c ""))
  = includes s (String c (String c "")).
Proof.
  intros Hc. induction s as [|a t IH]; [done |].
  change (includes (String a t) (String c (String c "")))
    with (Ascii.eqb c a && startsWith t (String c "")
          || includes t (String c (String c ""))).
  rewrite <- IH, <- (asciiLowerCase_startsWith_char t _ Hc).
  change (includes (asciiLowerCase (String a t)) (String c (String c "")))
    with (Ascii.eqb c (lower_ascii a)
          && startsWith (asciiLowerCase t) (String c "")
          || includes (asciiLowerCase t) (String c (String c ""))).
  by rewrite (lower_ascii_eqb _ _ Hc).
Qed.

Lemma lower_fixes_at a : lower_ascii a = "@"%char <-> a = "@"%char.
Proof. apply lower_ascii_fixes; vm_compute; lia. Qed.
Lemma lower_fixes_dot a : lower_ascii a = "."%char <-> a = "."%char.
Proof. apply lower_ascii_fixes; vm_compute; lia. Qed.
Lemma lower_fixes_bang a : lower_ascii a = "!"%char <-> a = "!"%char.
Proof. apply lower_ascii_fixes; vm_compute; lia. Qed.
Lemma lower_fixes_qmark a : lower_ascii a = "?"%char <-> a = "?"%char.
Proof. apply lower_ascii_fixes; vm_compute; lia. Qed.

Lemma truthy_true s : truthy s = true <-> s <> "".
Proof.
  unfold truthy. rewrite negb_true_iff, String.eqb_neq. done.
Qed.

(** The folding of A-Z is a lowercasing in the sense of [Runtime]. *)
#[global] Instance ascii_runtime : Runtime := {|
  toLowerCase := asciiLowerCase;
  toLowerCase_truthy := fun s =>
    match s with EmptyString => eq_refl | String _ _ => eq_refl end;
  toLowerCase_at := fun s => asciiLowerCase_includes_char s _ lower_fixes_at;
  toLowerCase_bangs := fun s =>
    asciiLowerCase_includes_pair s _ lower_fixes_bang;
  toLowerCase_qmarks := fun s =>
    asciiLowerCase_includes_pair s _ lower_fixes_qmark
|}.

(** The global match of [/[c]{2,}/] is non-empty exactly when the run
    in progress completes to two characters or [cc] occurs later. *)
Lemma matchRuns_nonempty c cur s :
  (0 <? length (matchRuns c cur s))%nat =
  (2 <=? String.length cur)%nat
  || ((String.length cur =? 1)%nat && startsWith s (String c ""))
  || includes s (String c (String c "")).
Proof.
  revert cur. induction s as [|a t IH]; intros cur.
  - simpl. rewrite andb_false_r, !orb_false_r.
    by destruct (String.length cur) as [|[|n]].
  - change (matchRuns c cur (String a t)) with
      (if Ascii.eqb a c then matchRuns c (String c cur) t
       else (if (2 <=? String.length cur)%nat then [cur] else [])
            ++ matchRuns c "" t).
    change (includes (String a t) (String c (String c ""))) with
      (startsWith (String a t) (String c (String c ""))
       || includes t (String c (String c ""))).
    change (startsWith (String a t) (String c (String c ""))) with
      (Ascii.eqb c a && startsWith t (String c "")).
    change (startsWith (String a t) (String c "")) with
      (Ascii.eqb c a && true).
    rewrite (Ascii.eqb_sym c a).
    destruct (Ascii.eqb a c).
    + rewrite IH.
      change (String.length (String c cur)) with (S (String.length cur)).
      destruct (String.length cur) as [|[|n]]; simpl;
        by destruct (startsWith t (String c "")),
                    (includes t (String c (String c ""))).
    + rewrite length_app, andb_false_r, orb_false_r, orb_false_l.
      specialize (IH ""). simpl in IH. rewrite <- IH.
      by destruct (String.length cur) as [|[|n]].
Qed.

Lemma lastIndexOf_lower_bound c s : -1 <= lastIndexOf c s.
Proof.
  induction s as [|a t IH]; simpl; [lia |].
  destruct (0 <=? lastIndexOf c t) eqn:E; [apply Z.leb_le in E; lia |].
  destruct (Ascii.eqb a c); lia.
Qed.

Lemma lastIndexOf_found c s :
  (0 <=? lastIndexOf c s) = includes s (String c "").
Proof.
  induction s as [|a t IH]; [done |].
  change (includes (String a t) (String c ""))
    with (Ascii.eqb c a && true || includes t (String c "")).
  rewrite andb_true_r, (Ascii.eqb_sym c a), <- IH. simpl.
  destruct (0 <=? lastIndexOf c t) eqn:E.
  - apply Z.leb_le in E. rewrite orb_true_r. apply Z.leb_le. lia.
  - rewrite orb_false_r. by destruct (Ascii.eqb a c).
Qed.

(** [s.substring(s.lastIndexOf(c) + 1)] is the part after the last [c]. *)
Lemma substring_lastIndexOf c s :
  substringFrom (Z.to_nat (lastIndexOf c s + 1)) s = afterLast c s.
Proof.
  induction s as [|a t IH]; [done |].
  pose proof (lastIndexOf_lower_bound c t) as Hlb.
  simpl. rewrite <- lastIndexOf_found.
  destruct (0 <=? lastIndexOf c t) eqn:E.
  - apply Z.leb_le in E.
    replace (Z.to_nat (1 + lastIndexOf c t + 1))
      with (S (Z.to_nat (lastIndexOf c t + 1))) by lia.
    done.
  - destruct (Ascii.eqb a c); done.
Qed.

Lemma afterLast_absent c s :
  ~ contains s (String c "") -> afterLast c s = s.
Proof.
  intros Hn%includes_false. destruct s as [|a t]; [done |].
  change (includes (String a t) (String c ""))
    with (Ascii.eqb c a && true || includes t (String c "")) in Hn.
  rewrite andb_true_r, (Ascii.eqb_sym c a) in Hn.
  apply orb_false_iff in Hn as [Ha Ht]. simpl. by rewrite Ht, Ha.
Qed.

Lemma existsb_In {A} (p : A -> bool) (l : list A) :
  existsb p l = true <-> exists x, In x l /\ p x = true.
Proof. apply existsb_exists. Qed.

End StringFacts.

(** What follows from the four facts about [toLowerCase]. *)
Section LowerCaseFacts.
Context {RT : Runtime}.
Implicit Types (s sub : string).

Lemma truthy_toLowerCase s : truthy (toLowerCase s) = truthy s.
Proof. apply toLowerCase_truthy. Qed.

Lemma toLowerCase_empty : toLowerCase "" = "".
Proof.
  pose proof (toLowerCase_truthy "") as Ht. unfold truthy in Ht.
  apply negb_false_iff in Ht. by apply String.eqb_eq in Ht.
Qed.

Lemma orElse_toLowerCase (x : option string) :
  orElse (toLowerCase <$> x) "" = toLowerCase (orElse x "").
Proof.
  destruct x as [v|]; simpl; [|by rewrite toLowerCase_empty].
  rewrite truthy_toLowerCase.
  destruct (truthy v); [done | by rewrite toLowerCase_empty].
Qed.

(** [a.toLowerCase().includes(b.toLowerCase())] is containment up to case. *)
Lemma includes_lower_containsCI s sub :
  includes (toLowerCase s) (toLowerCase sub) = true <-> containsCI s sub.
Proof. apply includes_contains. Qed.

Lemma contains_at_toLowerCase s :
  contains (toLowerCase s) "@" <-> contains s "@".
Proof. by rewrite <- !includes_contains, toLowerCase_at. Qed.

End LowerCaseFacts.

(** ** Rule Matcher and Spam Classifier *)

Lemma senderDomainOf_spec h : senderDomainOf h = domainFirstRemoved h.
Proof.
  unfold senderDomainOf, domainFirstRemoved. by rewrite substring_lastIndexOf.
Qed.

Lemma heuristic4_spec d :
  heuristic4 d = true <-> d <> "" /\ ~ contains d "." /\ d <> "localhost".
Proof.
  unfold heuristic4.
  rewrite !andb_true_iff, !negb_true_iff, truthy_true, includes_false,
    String.eqb_neq.
  tauto.
Qed.

Section MatcherSpec.
Context {RT : Runtime}.

Lemma punctuation_spec subject :
  (0 <? length (matchRuns "!" "" (toLowerCase subject)))%nat
  || (0 <? length (matchRuns "?" "" (toLowerCase subject)))%nat = true
  <-> contains subject "!!" \/ contains subject "??".
Proof.
  rewrite !matchRuns_nonempty. simpl.
  rewrite toLowerCase_bangs, toLowerCase_qmarks.
  by rewrite orb_true_iff, !includes_contains.
Qed.

Lemma if_chain_true (a b c d : bool) :
  (if a then true else if b then true else if c then true
   else if d then true else false) = true
  <-> a = true \/ b = true \/ c = true \/ d = true.
Proof. destruct a, b, c, d; intuition congruence. Qed.

(** C6. The Rule Matcher is case-insensitive substring containment, that
    is, containment of the lowercased condition value in the lowercased
    text, for whatever lowercasing the runtime provides: a [sender] rule
    looks in the sender header, a [subject] rule in the subject header, a
    [keyword] rule in the subject header or the text snippet; a rule of
    any other type never matches.  The case of the condition value is
    immaterial: two rules of one type whose values agree once lowercased
    match the same messages.  The matcher is a function of the message
    and the rule only. *)
Theorem messageMatchesRule_spec (decode : string -> option string)
    (m : Message) (r : Rule) :
  (messageMatchesRule decode m r = true <->
     (r_type r = "sender" /\ containsCI (senderHeader m) (r_value r))
     \/ (r_type r = "subject" /\ containsCI (subjectHeader m) (r_value r))
     \/ (r_type r = "keyword" /\
         (containsCI (subjectHeader m) (r_value r)
          \/ containsCI (bodySnippet decode m) (r_value r))))
  /\ (~ In (r_type r) ["sender"; "subject"; "keyword"] ->
      messageMatchesRule decode m r = false)
  /\ (forall r',
        r_type r' = r_type r ->
        toLowerCase (r_value r') = toLowerCase (r_value r) ->
        messageMatchesRule decode m r' = messageMatchesRule decode m r).
Proof.
  apply and_assoc. split;
    [|intros r' Ht Hv; unfold messageMatchesRule; by rewrite Ht, Hv].
  unfold messageMatchesRule. fold (senderHeader m) (subjectHeader m).
  destruct (String.eqb_spec (r_type r) "sender") as [Hs|Hs];
    [|destruct (String.eqb_spec (r_type r) "subject") as [Hj|Hj];
      [|destruct (String.eqb_spec (r_type r) "keyword") as [Hk|Hk]]].
  - rewrite includes_lower_containsCI, Hs. split.
    + split; [tauto |]. intros [H1 | [[H1 _] | [H1 _]]]; [tauto | done | done].
    + intros Hn. destruct Hn. simpl. tauto.
  - rewrite includes_lower_containsCI, Hj. split.
    + split; [tauto |]. intros [[H1 _] | [H1 | [H1 _]]]; [done | tauto | done].
    + intros Hn. destruct Hn. simpl. tauto.
  - rewrite orb_true_iff, !includes_lower_containsCI, Hk. split.
    + split; [tauto |]. intros [[H1 _] | [[H1 _] | H1]]; [done | done | tauto].
    + intros Hn. destruct Hn. simpl. tauto.
  - split; [|done]. split; [done |]. tauto.
Qed.

Lemma isSpam_iff (u : Settings) (m : Message) :
  isSpam u m = true <->
  enableSpamDetection u = true /\ spamHeuristics domainFirstRemoved u m.
Proof.
  unfold isSpam, spamHeuristics.
  destruct (enableSpamDetection u); simpl; [|intuition congruence].
  rewrite !orElse_toLowerCase, senderDomainOf_spec.
  fold (senderHeader m) (subjectHeader m).
  rewrite if_chain_true, !existsb_In, punctuation_spec, heuristic4_spec.
  assert (Hk : (exists k, In k (spamKeywords u) /\
                  includes (toLowerCase (subjectHeader m)) (toLowerCase k) = true)
               <-> exists k, In k (spamKeywords u) /\ containsCI (subjectHeader m) k).
  { split; intros (k & Hin & Hc); exists k; split; try done;
      by apply includes_lower_containsCI. }
  assert (Hd : (exists d, In d (spamSenderDomains u) /\
                  endsWith (domainFirstRemoved (toLowerCase (senderHeader m)))
                    (toLowerCase d) = true)
               <-> exists d, In d (spamSenderDomains u) /\
                     hasSuffix (domainFirstRemoved (toLowerCase (senderHeader m)))
                       (toLowerCase d)).
  { split; intros (d & Hin & Hc); exists d; split; try done;
      by apply endsWith_spec. }
  rewrite Hk, Hd. tauto.
Qed.

(** C5, as the code has it.  [isSpam] is false whenever spam detection is
    disabled; when enabled it is true exactly when one of the four
    heuristics holds, the sender domain being the part of the lowercased
    sender header after its last [@] with the first [>] removed.  Up to
    case means after lowercasing both sides, for whatever lowercasing
    the runtime provides. *)
Theorem isSpam_spec (u : Settings) (m : Message) :
  (enableSpamDetection u = false -> isSpam u m = false)
  /\ (isSpam u m = true <->
      enableSpamDetection u = true /\ spamHeuristics domainFirstRemoved u m).
Proof.
  split; [|apply isSpam_iff].
  intros Hoff. unfold isSpam. by rewrite Hoff.
Qed.

End MatcherSpec.

(** C5, as the specification words it, fails: with a sender whose first
    [>] is not trailing, e.g. [bob@local>host], stripping a trailing [>]
    leaves [local>host], which the fourth heuristic flags, while the code
    removes the inner [>], obtains [localhost] and answers false. *)
Lemma isSpam_trailing_strip_counterexample :
  ~ (forall u m, isSpam u m = true <->
       enableSpamDetection u = true /\ spamHeuristics domainTrailingStripped u m).
Proof.
  intros Hspec.
  specialize (Hspec (Scenario.plainSettings []) Scenario.oddSender).
  assert (Hcode : isSpam (Scenario.plainSettings []) Scenario.oddSender = false)
    by reflexivity.
  rewrite Hcode in Hspec. destruct Hspec as [_ Hspec].
  discriminate Hspec. split; [reflexivity |].
  right. right. right. vm_compute domainTrailingStripped.
  split; [done |]. split; [|done].
  apply includes_false. reflexivity.
Qed.

Section SenderWithoutAt.
Context {RT : Runtime}.

(** C10. When the sender header has no [@], the sender domain computed by
    [isSpam] is the whole lowercased header with its first [>] removed;
    if that string is non-empty, has no [.] and is not [localhost], the
    fourth heuristic fires and, spam detection being enabled, the message
    is classified as spam. *)
Theorem isSpam_sender_without_at (u : Settings) (m : Message) :
  ~ contains (senderHeader m) "@" ->
  let domain := removeFirst ">" (toLowerCase (senderHeader m)) in
  senderDomainOf (orElse (toLowerCase <$> headerValue "from" m) "") = domain
  /\ (domain <> "" -> ~ contains domain "." -> domain <> "localhost" ->
      heuristic4 domain = true
      /\ (enableSpamDetection u = true -> isSpam u m = true)).
Proof.
  intros Hat domain.
  assert (Hdom : domainFirstRemoved (toLowerCase (senderHeader m)) = domain).
  { unfold domainFirstRemoved. rewrite afterLast_absent; [done |].
    intros Hc. apply Hat. by apply contains_at_toLowerCase. }
  split.
  - by rewrite orElse_toLowerCase, senderDomainOf_spec.
  - intros H1 H2 H3. split; [by apply heuristic4_spec |].
    intros Hen. apply isSpam_iff. split; [done |].
    unfold spamHeuristics. rewrite Hdom. tauto.
Qed.

End SenderWithoutAt.

Lemma isSpam_sender_without_at_witness :
  isSpam (Scenario.plainSettings []) Scenario.bareSender = true.
Proof.
  refine (proj2 (proj2 (isSpam_sender_without_at (Scenario.plainSettings [])
                          Scenario.bareSender _) _ _ _) _).
  - apply includes_false. reflexivity.
  - vm_compute. discriminate.
  - apply includes_false. reflexivity.
  - vm_compute. discriminate.
  - reflexivity.
Defined.

(** ** Reasoning about the state monad *)

Section Footprint.
Context {RT : Runtime} {W : Type} `{Browser W}.

Lemma bind_eq {A B} (c : M W A) (k : A -> M W B) s :
  bind c k s = k (c s).1 (c s).2.
Proof. unfold bind. by destruct (c s). Qed.

Section Rules.
Context (R : State W -> State W -> Prop) `{!LabelFrame R}.

Lemma pres_ret {A} (a : A) s : pres R (ret a) s.
Proof. unfold pres. simpl. apply frame_refl. Qed.

Lemma pres_bind {A B} (c : M W A) (k : A -> M W B) s :
  pres R c s ->
  (forall a s', c s = (a, s') -> pres R (k a) s') ->
  pres R (bind c k) s.
Proof.
  unfold pres, bind. intros Hc Hk. destruct (c s) as [a s'] eqn:E.
  eapply frame_trans; [exact Hc | by apply Hk].
Qed.

Lemma pres_get {B} (k : State W -> M W B) s :
  pres R (k s) s -> pres R (bind get k) s.
Proof. done. Qed.

Lemma pres_modify (f : State W -> State W) s :
  R s (f s) -> pres R (modify f) s.
Proof. done. Qed.

Lemma pres_call {A} (op : W -> A * W) s : pres R (call op) s.
Proof. unfold pres, call. destruct (op (world s)). apply frame_world. Qed.
End Rules.

End Footprint.

Ltac pres_step :=
  lazymatch goal with
  | |- pres _ (bind get _) _ => apply pres_get; try tc_solve; cbv beta
  | |- pres _ (bind _ _) _ => apply pres_bind; try tc_solve; [| intros ? ? ?]
  | |- pres _ (ret _) _ => apply pres_ret; tc_solve
  | |- pres _ (modify _) _ => apply pres_modify; try tc_solve
  | |- pres _ (call _) _ => apply pres_call; tc_solve
  | |- pres _ (match ?x with _ => _ end) _ => destruct x eqn:?
  end.

Section Footprints.
Context {RT : Runtime} {W : Type} `{Browser W}.

Section Labels.
Context (R : State W -> State W -> Prop) `{!LabelFrame R}.

Lemma getLabels_pres s : pres R getLabels s.
Proof. unfold getLabels. repeat pres_step; apply frame_labels; tc_solve. Qed.

Lemma postLabel_pres name s : pres R (postLabel name) s.
Proof. unfold postLabel. repeat pres_step; apply frame_labels; tc_solve. Qed.

Lemma createLabelIfNeeded_pres name s : pres R (createLabelIfNeeded name) s.
Proof.
  unfold createLabelIfNeeded.
  apply pres_bind; [tc_solve | apply getLabels_pres; tc_solve | intros ? ? ?].
  repeat pres_step; apply postLabel_pres; tc_solve.
Qed.

Lemma resolveTarget_pres rule s : pres R (resolveTarget rule) s.
Proof.
  unfold resolveTarget. repeat pres_step; apply createLabelIfNeeded_pres; tc_solve.
Qed.

Lemma applyLabelsToMessage_pres id add rem s :
  pres R (applyLabelsToMessage id add rem) s.
Proof. unfold applyLabelsToMessage. repeat pres_step. Qed.
End Labels.

Section Cycle.
Context (R : State W -> State W -> Prop) `{!CycleFrame R}.

Lemma applyRules_pres id m rs s : pres R (applyRules id m rs) s.
Proof.
  revert s. induction rs as [|rule rest IH]; intros s; simpl.
  - apply pres_ret. tc_solve.
  - destruct (messageMatchesRule atob m rule); [|apply IH].
    apply pres_bind; [tc_solve | apply resolveTarget_pres; tc_solve | intros a s' _].
    destruct a; [|apply IH].
    repeat pres_step. apply frame_messageRule.
Qed.

Lemma classify_pres id m s : pres R (classify id m) s.
Proof.
  unfold classify. pres_step. pres_step.
  - pres_step; [apply createLabelIfNeeded_pres; tc_solve |]. repeat pres_step.
  - pres_step; [apply applyRules_pres; tc_solve |]. repeat pres_step.
Qed.

Lemma analyzeForPatterns_pres m ids s : pres R (analyzeForPatterns m ids) s.
Proof.
  unfold analyzeForPatterns.
  destruct ids as [|i ids]; [apply pres_ret; tc_solve |].
  repeat pres_step; try apply frame_counts.
  match goal with
  | E : call date_now ?s1 = _ |- _ =>
      unfold call in E; destruct (date_now (world s1)) as [now w];
      injection E as <- <-;
      change (suggestedLabels s1) with (suggestedLabels (set_world w s1))
  end.
  by apply frame_suggest.
Qed.

Lemma processFetched_pres id m s : pres R (processFetched id m) s.
Proof.
  unfold processFetched.
  pres_step; [apply classify_pres; tc_solve |].
  pres_step.
  - pres_step; [apply applyLabelsToMessage_pres; tc_solve | apply pres_ret; tc_solve].
  - pres_step. pres_step; [apply analyzeForPatterns_pres; tc_solve | apply pres_ret; tc_solve].
Qed.

Lemma processEmail_pres id s : pres R (processEmail id) s.
Proof.
  unfold processEmail. pres_step; [pres_step |].
  pres_step; try (apply pres_ret; tc_solve).
  apply processFetched_pres.
Qed.

Lemma forEach_pres {A} (f : A -> M W unit) l s :
  (forall x s', pres R (f x) s') -> pres R (forEach f l) s.
Proof.
  intros Hf. revert s. induction l as [|x l IH]; intros s; simpl.
  - apply pres_ret. tc_solve.
  - apply pres_bind; [tc_solve | apply Hf | intros; apply IH].
Qed.
End Cycle.

End Footprints.

(** ** Processing Cycle *)

(** Three messages from [billing.example.com] filed under Finance by a
    rule: after the cycle the pair has been counted three times, one
    pending suggestion [Finance - billing.example.com] is stored and the
    completion time is recorded. *)
Example three_bills_one_suggestion :
  let s' := (processUnreadEmails Scenario.billing).2 in
  (fun g => (sg_name g, sg_status g)) <$> suggestedLabels s'
    = [("Finance - billing.example.com", pending)]
  /\ domainLabelCounts s' !! "billing.example.com:::Label_Finance" = Some 3%nat
  /\ local_lastProcessedTimestamp s' = Some "2024-01-01T00:00:00.000Z".
Proof. vm_compute. repeat split. Qed.

Section CycleFacts.
Context {RT : Runtime} {W : Type} `{Browser W}.

#[global] Instance sameTimestamp_label : LabelFrame (@sameTimestamp W).
Proof.
  split; unfold sameTimestamp; simpl; try done.
  intros s1 s2 s3 [H1 H2] [H3 H4]. split; congruence.
Qed.

#[global] Instance sameTimestamp_cycle : CycleFrame (@sameTimestamp W).
Proof. split; [tc_solve | ..]; unfold sameTimestamp; simpl; done. Qed.

Lemma loadSettings_timestamp (s : State W) : sameTimestamp s (loadSettings s).2.
Proof.
  unfold loadSettings, modify, sameTimestamp. simpl.
  by destruct (sync_userSettings s).
Qed.

Lemma recordTimestamp_records (s : State W) :
  let t := (date_iso (world s)).1 in
  lastProcessedTimestamp (userSettings (recordTimestamp s).2) = Some t
  /\ local_lastProcessedTimestamp (recordTimestamp s).2 = Some t.
Proof.
  unfold recordTimestamp, bind, call, modify. simpl.
  by destruct (date_iso (world s)).
Qed.

(** C8, as the code has it.  A cycle whose unread-list fetch throws
    leaves both copies of [lastProcessedTimestamp] as they were.  Every
    other cycle ends by recording the time: one whose fetch returned a
    list records the time read after the last message was handled,
    whatever happened to the individual messages, and one whose fetch
    returned [null], no token being at hand, handles no message and
    records the time all the same. *)
Theorem processUnreadEmails_timestamp (s : State W) :
  let s1 := (bind loadSettings (fun _ => getLabels) s).2 in
  let fetched := gmail_listUnread (world s1) in
  let s' := (processUnreadEmails s).2 in
  match fetched.1 with
  | ApiThrow => sameTimestamp s s'
  | ApiNull =>
      let t := (date_iso fetched.2).1 in
      lastProcessedTimestamp (userSettings s') = Some t
      /\ local_lastProcessedTimestamp s' = Some t
  | ApiOk messages =>
      let s2 := (forEach processEmail (take 10 messages)
                   (set_world fetched.2 s1)).2 in
      let t := (date_iso (world s2)).1 in
      lastProcessedTimestamp (userSettings s') = Some t
      /\ local_lastProcessedTimestamp s' = Some t
  end.
Proof.
  intros s1 fetched s'.
  assert (Hs1 : s1 = (getLabels (loadSettings s).2).2)
    by (subst s1; by rewrite bind_eq).
  assert (Hrun : s' =
    (match fetched.1 with
     | ApiOk messages =>
         run forEach processEmail (take 10 messages) in recordTimestamp
     | ApiNull => recordTimestamp
     | ApiThrow => ret tt
     end (set_world fetched.2 s1)).2).
  { subst s'. unfold processUnreadEmails.
    rewrite (bind_eq loadSettings). cbv beta.
    rewrite (bind_eq getLabels). cbv beta. rewrite <- Hs1.
    rewrite bind_eq. unfold call. fold fetched. by destruct fetched. }
  clearbody s' fetched. subst s'. destruct fetched as [data w].
  cbn [fst snd]. destruct data as [messages| |].
  - rewrite bind_eq. apply recordTimestamp_records.
  - apply (recordTimestamp_records (set_world w s1)).
  - cbn. subst s1.
    apply (frame_trans _ _ _ (loadSettings_timestamp s)).
    apply (frame_trans _ (getLabels (loadSettings s).2).2);
      [apply (getLabels_pres (@sameTimestamp W)) | apply frame_world].
Qed.

End CycleFacts.

(** C8, as stated, fails.  When the user is signed out [fetchGmailApi]
    asks for authentication and returns [null] instead of the unread
    list.  The cycle does not abort: it takes the list for empty and
    records the completion time, although no message was fetched. *)
Lemma null_fetch_counterexample :
  let s := Scenario.signedOut in
  let s' := (processUnreadEmails (H := Scenario.signedOut_browser) s).2 in
  (gmail_listUnread (Browser := Scenario.signedOut_browser) (world s)).1
    = ApiNull
  /\ lastProcessedTimestamp (userSettings s) = None
  /\ local_lastProcessedTimestamp s = None
  /\ lastProcessedTimestamp (userSettings s') = Some "2024-01-01T00:00:00.000Z"
  /\ local_lastProcessedTimestamp s' = Some "2024-01-01T00:00:00.000Z"
  /\ ~ sameTimestamp s s'.
Proof.
  vm_compute. repeat split. by intros [_ Hlocal].
Qed.

(** ** Message Classifier *)

Section ClassifierFacts.
Context {RT : Runtime} {W : Type} `{Browser W}.

(** The Label Resolver neither reads nor writes the settings. *)
Lemma createLabelIfNeeded_settings name u (s : State W) :
  createLabelIfNeeded name (set_userSettings u s) =
  ((createLabelIfNeeded name s).1,
   set_userSettings u (createLabelIfNeeded name s).2).
Proof.
  unfold createLabelIfNeeded, getLabels, postLabel, bind, call, get, modify,
    ret.
  simpl. repeat (case_match; simpl in *; simplify_eq); done.
Qed.

Lemma applyRules_cons id m rule rest (s : State W) :
  applyRules id m (rule :: rest) s =
  if messageMatchesRule atob m rule then
    match resolveTarget rule s with
    | (Some l, s1) => (Some l, recordRule id l rule s1)
    | (None, s1) => applyRules id m rest s1
    end
  else applyRules id m rest s.
Proof.
  simpl. destruct (messageMatchesRule atob m rule); [|done].
  rewrite bind_eq. destruct (resolveTarget rule s) as [[l|] s1]; done.
Qed.

Lemma applyRules_None id m rs (s s' : State W) :
  applyRules id m rs s = (None, s') <-> skips id m rs s s'.
Proof.
  split.
  - revert s. induction rs as [|rule rest IH]; intros s.
    + intros [= <-]. constructor.
    + rewrite applyRules_cons.
      destruct (messageMatchesRule atob m rule) eqn:Hm.
      * destruct (resolveTarget rule s) as [[l|] s1] eqn:Hr; [done |].
        intros Hrest. eapply skips_unresolved; eauto.
      * intros Hrest. apply skips_nomatch; eauto.
  - induction 1 as [s | rule rest s s' Hm _ IH | rule rest s s1 s' Hm Hr _ IH].
    + done.
    + by rewrite applyRules_cons, Hm.
    + by rewrite applyRules_cons, Hm, Hr.
Qed.

Lemma applyRules_app id m l1 l2 (s : State W) :
  applyRules id m (l1 ++ l2) s =
  match applyRules id m l1 s with
  | (Some l, s1) => (Some l, s1)
  | (None, s1) => applyRules id m l2 s1
  end.
Proof.
  revert s. induction l1 as [|rule rest IH]; intros s; [done |].
  rewrite <- app_comm_cons, !applyRules_cons.
  destruct (messageMatchesRule atob m rule); [|apply IH].
  destruct (resolveTarget rule s) as [[l|] s1]; [done | apply IH].
Qed.

(** Once a rule matches and resolves, what follows it is not looked at. *)
Lemma applyRules_stop id m pre rule post l (s s0 s1 : State W) :
  skips id m pre s s0 ->
  messageMatchesRule atob m rule = true ->
  resolveTarget rule s0 = (Some l, s1) ->
  applyRules id m (pre ++ rule :: post) s = (Some l, recordRule id l rule s1).
Proof.
  intros Hpre%applyRules_None Hm Hr.
  by rewrite applyRules_app, Hpre, applyRules_cons, Hm, Hr.
Qed.

Lemma applyRules_Some id m rs l (s s' : State W) :
  applyRules id m rs s = (Some l, s') ->
  exists pre rule post s0 s1,
    rs = pre ++ rule :: post /\ skips id m pre s s0 /\
    messageMatchesRule atob m rule = true /\
    resolveTarget rule s0 = (Some l, s1) /\ s' = recordRule id l rule s1.
Proof.
  revert s. induction rs as [|rule rest IH]; intros s; [done |].
  rewrite applyRules_cons.
  destruct (messageMatchesRule atob m rule) eqn:Hm.
  - destruct (resolveTarget rule s) as [[l'|] s1] eqn:Hr.
    + intros [= -> <-]. exists [], rule, rest, s, s1.
      repeat split; try done. constructor.
    + intros (pre & r & post & s0 & s2 & -> & Hpre & ? & ? & ?)%IH.
      exists (rule :: pre), r, post, s0, s2. repeat split; try done.
      eapply skips_unresolved; eauto.
  - intros (pre & r & post & s0 & s2 & -> & Hpre & ? & ? & ?)%IH.
    exists (rule :: pre), r, post, s0, s2. repeat split; try done.
    by apply skips_nomatch.
Qed.

Lemma classify_eq id m (s : State W) :
  classify id m s =
  if isSpam (userSettings s) m then
    match createLabelIfNeeded SPAM_LABEL_NAME s with
    | (Some l, s') => (([l], false), s')
    | (None, s') => (([], false), s')
    end
  else
    match applyRules id m (rules (userSettings s)) s with
    | (Some l, s') => (([l], true), s')
    | (None, s') => (([], false), s')
    end.
Proof.
  unfold classify. rewrite bind_eq. cbn [get fst snd].
  destruct (isSpam (userSettings s) m); rewrite bind_eq.
  - by destruct (createLabelIfNeeded SPAM_LABEL_NAME s) as [[l|] s'].
  - by destruct (applyRules id m (rules (userSettings s)) s) as [[l|] s'].
Qed.

#[global] Instance sameStore_label : LabelFrame (@sameStore W).
Proof.
  split; unfold sameStore; simpl; try done.
  intros s1 s2 s3 (?&?&?&?&?&?) (?&?&?&?&?&?). repeat split; congruence.
Qed.

Lemma isSpam_set_rules rs u m : isSpam (set_rules rs u) m = isSpam u m.
Proof. reflexivity. Qed.

(** C3. For a message the Spam Classifier flags, classification consists
    of resolving the fixed spam label alone: the result is that label (or
    nothing) with no rule applied, and it does not depend on the rule
    list.  Processing the message then does one thing more: when the
    label was resolved it sends one modify request for this message,
    adding that label and nothing else and removing [UNREAD]; when it
    was not, it sends none.  No rule record, counter or suggestion is
    written. *)
Theorem classify_spam_exclusive (messageId : string) (m : Message)
    (s : State W) :
  isSpam (userSettings s) m = true ->
  let resolved := createLabelIfNeeded SPAM_LABEL_NAME s in
  classify messageId m s =
    ((match resolved.1 with Some l => [l] | None => [] end, false),
     resolved.2)
  /\ (forall rs,
        let u := set_rules rs (userSettings s) in
        classify messageId m (set_userSettings u s) =
        ((classify messageId m s).1,
         set_userSettings u (classify messageId m s).2))
  /\ sameStore s (processFetched messageId m s).2
  /\ processFetched messageId m s =
     (tt,
      match resolved.1 with
      | Some l =>
          set_world
            (gmail_modify messageId [l] ["UNREAD"] (world resolved.2)).2
            resolved.2
      | None => resolved.2
      end).
Proof.
  intros Hspam resolved.
  assert (Hc : classify messageId m s =
    ((match resolved.1 with Some l => [l] | None => [] end, false),
     resolved.2)).
  { rewrite classify_eq, Hspam. subst resolved.
    by destruct (createLabelIfNeeded SPAM_LABEL_NAME s) as [[l|] s']. }
  split; [done |]. split; [|split].
  - intros rs u. rewrite Hc, classify_eq.
    cbn [userSettings set_userSettings]. subst u.
    rewrite isSpam_set_rules, Hspam, createLabelIfNeeded_settings.
    fold resolved. by destruct (resolved.1).
  - change (pres (@sameStore W) (processFetched messageId m) s).
    unfold processFetched.
    apply pres_bind; [tc_solve | | intros [labels applied] s1 Hc1].
    + unfold pres. rewrite Hc.
      apply (createLabelIfNeeded_pres (@sameStore W)).
    + rewrite Hc in Hc1. injection Hc1 as <- <- <-.
      cbn [fst snd andb].
      repeat pres_step; apply applyLabelsToMessage_pres; tc_solve.
  - unfold processFetched. rewrite bind_eq, Hc. cbn [fst snd andb].
    destruct (resolved.1) as [l|]; cbn [length Nat.ltb Nat.leb];
      rewrite bind_eq.
    + assert (Ha : applyLabelsToMessage messageId [l] ["UNREAD"] resolved.2 =
                   (tt, set_world
                          (gmail_modify messageId [l] ["UNREAD"]
                             (world resolved.2)).2 resolved.2)).
      { unfold applyLabelsToMessage. rewrite bind_eq. unfold call.
        by destruct (gmail_modify messageId [l] ["UNREAD"]
                       (world resolved.2)). }
      rewrite Ha. by rewrite bind_eq.
    + by rewrite bind_eq.
Qed.

(** C2, as the code has it.  For a message that is not spam the rules are
    tried in stored order and the loop stops at the first rule that
    matches and whose target label resolves; a matching rule whose label
    cannot be resolved is passed over.  Nothing after the stopping rule
    has any influence, and that rule's label is the only one applied. *)
Theorem classify_first_resolved (messageId : string) (m : Message)
    (s : State W) :
  isSpam (userSettings s) m = false ->
  let rs := rules (userSettings s) in
  let labels := (classify messageId m s).1.1 in
  let applied := (classify messageId m s).1.2 in
  let s' := (classify messageId m s).2 in
  (labels = [] /\ applied = false /\ skips messageId m rs s s')
  \/ (exists pre rule post l s0 s1,
        rs = pre ++ rule :: post
        /\ skips messageId m pre s s0
        /\ messageMatchesRule atob m rule = true
        /\ resolveTarget rule s0 = (Some l, s1)
        /\ labels = [l] /\ applied = true
        /\ s' = recordRule messageId l rule s1
        /\ forall post',
             applyRules messageId m (pre ++ rule :: post') s = (Some l, s')).
Proof.
  intros Hham rs labels applied s'. subst labels applied s'.
  rewrite classify_eq, Hham. fold rs.
  destruct (applyRules messageId m rs s) as [[l|] s'] eqn:Hrun.
  - right.
    destruct (applyRules_Some _ _ _ _ _ _ Hrun)
      as (pre & rule & post & s0 & s1 & Hrs & Hpre & Hm & Hr & ->).
    exists pre, rule, post, l, s0, s1. repeat split; try done.
    intros post'. by apply applyRules_stop with s0.
  - left. repeat split; try done. by apply applyRules_None.
Qed.

End ClassifierFacts.

Lemma classify_spam_exclusive_witness :
  (classify "m1" Scenario.prize
     (Scenario.initial
        (Scenario.plainSettings [Scenario.shopRule; Scenario.invoiceRule])
        Scenario.writable)).1
  = (["Label_ExtensionSpam"], false).
Proof.
  set (s := Scenario.initial _ _).
  assert (Hspam : isSpam (userSettings s) Scenario.prize = true)
    by (vm_compute; reflexivity).
  rewrite (proj1 (classify_spam_exclusive "m1" Scenario.prize s Hspam)).
  vm_compute. reflexivity.
Defined.

Lemma classify_first_resolved_witness :
  exists l,
    (classify "m1" Scenario.invoice
       (Scenario.initial
          (Scenario.plainSettings [Scenario.shopRule; Scenario.invoiceRule])
          Scenario.writable)).1.1 = [l].
Proof.
  set (s := Scenario.initial _ _).
  assert (Hham : isSpam (userSettings s) Scenario.invoice = false)
    by (vm_compute; reflexivity).
  destruct (classify_first_resolved "m1" Scenario.invoice s Hham)
    as [[Hnone _] | (pre & rule & post & l & s0 & s1 & _ & _ & _ & _ & Hl & _)].
  - vm_compute in Hnone. discriminate Hnone.
  - exists l. exact Hl.
Defined.

(** C2, as stated, fails.  With the rules [shopRule; invoiceRule], a
    message both match and a mail service that refuses to create the label
    of [shopRule], the loop passes over [shopRule], goes on to evaluate
    [invoiceRule] and applies its label. *)
Lemma first_match_wins_counterexample :
  let s := Scenario.initial
             (Scenario.plainSettings [Scenario.shopRule; Scenario.invoiceRule])
             Scenario.readOnly in
  isSpam (userSettings s) Scenario.invoice = false
  /\ messageMatchesRule atob Scenario.invoice Scenario.shopRule = true
  /\ messageMatchesRule atob Scenario.invoice Scenario.invoiceRule = true
  /\ (classify "m1" Scenario.invoice s).1 = (["Label_7"], true)
  /\ r_labelId Scenario.invoiceRule = Some "Label_7"
  /\ messageRule (classify "m1" Scenario.invoice s).2 !! "m1"
     = Some ("Label_7", "Finance").
Proof. vm_compute. repeat split. Qed.

(** ** Pattern Learner *)

Section LearnerFacts.
Context {RT : Runtime} {W : Type} `{Browser W}.

Lemma find_sameName_None name (l : list Suggestion) :
  find (sameName name) l = None <->
  forall g, In g l -> toLowerCase (sg_name g) <> toLowerCase name.
Proof.
  split.
  - intros Hf g Hin. apply String.eqb_neq.
    apply (find_none _ _ Hf g Hin).
  - intros Hall. induction l as [|g l IH]; [done |]. simpl.
    unfold sameName at 1.
    destruct (String.eqb_spec (toLowerCase (sg_name g)) (toLowerCase name))
      as [He|_].
    + exfalso. apply (Hall g); [by left | done].
    + apply IH. intros g' Hin. apply Hall. by right.
Qed.

Lemma nameUnusedb_spec name (s : State W) :
  nameUnusedb name s = true <-> nameUnused name s.
Proof.
  unfold nameUnusedb, nameUnused. rewrite <- find_sameName_None.
  destruct (find (sameName name) (suggestedLabels s)) as [g|].
  - split; [done | by intros [? _]].
  - rewrite negb_true_iff. split.
    + intros Hn. split; [done |]. intros id l Hin He.
      assert (existsb (nameMatches name) (gmailLabels s) = true) as Ht.
      { apply existsb_exists. exists (id, l). split; [done |].
        unfold nameMatches. simpl. by apply String.eqb_eq. }
      congruence.
    + intros [_ Hn]. apply not_true_is_false.
      intros ([id l] & Hin & He)%existsb_exists.
      apply (Hn id l Hin). by apply String.eqb_eq.
Qed.

(** The state the Pattern Learner leaves for an observation of
    [domain] under the cached label [id], named [labelName]. *)
Lemma analyzeForPatterns_eq m id domain labelName (s : State W) :
  matchAtDomain (senderHeader m) = Some domain ->
  id <> "" ->
  objGet (gmailLabels s) id = Some labelName ->
  labelName <> SPAM_LABEL_NAME ->
  let name := labelName +:+ " - " +:+ domain in
  let key := countKey domain id in
  let count := (default 0 (domainLabelCounts s !! key) + 1)%nat in
  let s1 := set_domainLabelCounts (<[key := count]> (domainLabelCounts s)) s in
  (analyzeForPatterns m [id] s).2 =
  if (MIN_EMAILS_FOR_PATTERN <=? count)%nat && nameUnusedb name s
  then set_suggestedLabels
         (suggestedLabels s ++
          [mkSuggestion ("sugg_" +:+ (date_now (world s)).1) name domain
             (Some labelName) id pending None])
         (set_world (date_now (world s)).2 s1)
  else s1.
Proof.
  intros Hdom Hid Hname Hspam name key count s1.
  unfold analyzeForPatterns. fold (senderHeader m). rewrite Hdom.
  rewrite bind_eq. cbn [get fst snd find].
  unfold notSpamLabel at 1. rewrite !Hname.
  apply String.eqb_neq in Hspam. rewrite Hspam. cbn [negb].
  apply truthy_true in Hid. rewrite Hid. cbn [negb].
  rewrite bind_eq. cbn [modify fst snd]. fold key count s1.
  destruct (MIN_EMAILS_FOR_PATTERN <=? count)%nat; [|done].
  rewrite bind_eq. cbn [get fst snd andb]. unfold nameUnusedb.
  change (suggestedLabels s1) with (suggestedLabels s).
  change (gmailLabels s1) with (gmailLabels s).
  rewrite ?Hname. cbn [interpolate]. fold name.
  destruct (find (sameName name) (suggestedLabels s)); [done |].
  replace (existsb (fun kv => nameMatches name kv) (gmailLabels s))
    with (existsb (nameMatches name) (gmailLabels s)) by done.
  destruct (existsb (nameMatches name) (gmailLabels s)); [done |].
  rewrite bind_eq. unfold call. cbn [negb].
  change (world s1) with (world s).
  by destruct (date_now (world s)).
Qed.

(** Further observations of a pair whose name is already suggested only
    count. *)
Lemma observations_silent id domain labelName ms (s : State W) :
  id <> "" ->
  objGet (gmailLabels s) id = Some labelName ->
  labelName <> SPAM_LABEL_NAME ->
  (exists g, In g (suggestedLabels s) /\
     toLowerCase (sg_name g)
     = toLowerCase (labelName +:+ " - " +:+ domain)) ->
  Forall (fun m => matchAtDomain (senderHeader m) = Some domain) ms ->
  let s' := (forEach (fun m => analyzeForPatterns m [id]) ms s).2 in
  suggestedLabels s' = suggestedLabels s
  /\ default 0%nat (domainLabelCounts s' !! countKey domain id)
     = (default 0 (domainLabelCounts s !! countKey domain id) + length ms)%nat.
Proof.
  intros Hid Hname Hspam Hex Hms. revert s Hname Hex.
  induction Hms as [|m ms Hm _ IH]; intros s Hname Hex; cbn zeta.
  - simpl. split; [done | lia].
  - cbn [forEach]. rewrite bind_eq.
    pose proof (analyzeForPatterns_eq m id domain labelName s
                  Hm Hid Hname Hspam) as Heq.
    cbn zeta in Heq.
    assert (Hused : nameUnusedb (labelName +:+ " - " +:+ domain) s = false).
    { apply not_true_is_false. intros [Hn _]%nameUnusedb_spec.
      destruct Hex as (g & Hin & Hg). by apply (Hn g). }
    rewrite Hused, andb_false_r in Heq. rewrite Heq.
    set (s1 := set_domainLabelCounts _ s).
    destruct (IH s1 Hname Hex) as [Hs Hc].
    rewrite Hs, Hc. subst s1. split; [done |].
    cbn [domainLabelCounts set_domainLabelCounts length].
    rewrite lookup_insert_eq. simpl. lia.
Qed.

(** A label the cache knows under the spam label's name is filtered out
    before anything is counted. *)
Lemma analyzeForPatterns_spam_named m id (s : State W) :
  objGet (gmailLabels s) id = Some SPAM_LABEL_NAME ->
  analyzeForPatterns m [id] s = (tt, s).
Proof.
  intros Hname. unfold analyzeForPatterns.
  destruct (matchAtDomain (orElse (headerValue "from" m) "")); [|done].
  rewrite bind_eq. cbn [get fst snd find].
  unfold notSpamLabel at 1. rewrite Hname.
  by rewrite String.eqb_refl.
Qed.

(** C4, as the code has it.  Take an applied label that the cache knows
    under some name.  When that name is the spam label's, the Pattern
    Learner returns at once: nothing is counted, nothing is suggested,
    the state is as it was.  Otherwise, for a message with a sender
    domain, it increments the counter of the pair; it appends one
    [pending] suggestion named [<labelName> - <domain>] exactly when the
    new count is at least the threshold and neither a stored suggestion
    of any status nor a cached label has that name up to case; once a
    suggestion of that name is stored, further observations of the pair
    only count. *)
Theorem analyzeForPatterns_learns m id labelName (s : State W) :
  objGet (gmailLabels s) id = Some labelName ->
  (labelName = SPAM_LABEL_NAME -> analyzeForPatterns m [id] s = (tt, s))
  /\ (forall domain,
        matchAtDomain (senderHeader m) = Some domain ->
        id <> "" ->
        labelName <> SPAM_LABEL_NAME ->
        let name := labelName +:+ " - " +:+ domain in
        let key := countKey domain id in
        let count := (default 0 (domainLabelCounts s !! key) + 1)%nat in
        let s' := (analyzeForPatterns m [id] s).2 in
        domainLabelCounts s' = <[key := count]> (domainLabelCounts s)
        /\ ((MIN_EMAILS_FOR_PATTERN <= count)%nat /\ nameUnused name s ->
            suggestedLabels s' =
            suggestedLabels s ++
            [mkSuggestion ("sugg_" +:+ (date_now (world s)).1) name domain
               (Some labelName) id pending None])
        /\ (~ ((MIN_EMAILS_FOR_PATTERN <= count)%nat /\ nameUnused name s) ->
            suggestedLabels s' = suggestedLabels s)
        /\ ((exists g, In g (suggestedLabels s) /\
               toLowerCase (sg_name g) = toLowerCase name) ->
            forall ms,
              Forall (fun m' => matchAtDomain (senderHeader m') = Some domain)
                ms ->
              let s'' :=
                (forEach (fun m' => analyzeForPatterns m' [id]) ms s).2 in
              suggestedLabels s'' = suggestedLabels s
              /\ default 0%nat (domainLabelCounts s'' !! key)
                 = (default 0 (domainLabelCounts s !! key) + length ms)%nat)).
Proof.
  intros Hname. split.
  { intros ->. by apply analyzeForPatterns_spam_named. }
  intros domain Hdom Hid Hspam name key count s'.
  pose proof (analyzeForPatterns_eq m id domain labelName s
                Hdom Hid Hname Hspam) as Heq.
  cbn zeta in Heq. fold name key count s' in Heq.
  assert (Hcond : (MIN_EMAILS_FOR_PATTERN <=? count)%nat
                  && nameUnusedb name s = true
                  <-> (MIN_EMAILS_FOR_PATTERN <= count)%nat
                      /\ nameUnused name s).
  { by rewrite andb_true_iff, Nat.leb_le, nameUnusedb_spec. }
  destruct ((MIN_EMAILS_FOR_PATTERN <=? count)%nat && nameUnusedb name s);
    rewrite Heq; (split; [done |]); (split; [|split]).
  - done.
  - intros Hn. destruct Hn. by apply Hcond.
  - intros Hex ms Hms.
    by apply (observations_silent id domain labelName ms s).
  - intros Hc%Hcond. done.
  - done.
  - intros Hex ms Hms.
    by apply (observations_silent id domain labelName ms s).
Qed.

End LearnerFacts.

Lemma analyzeForPatterns_learns_witness :
  sg_name <$> suggestedLabels
    (analyzeForPatterns Scenario.invoice ["Label_7"] Scenario.twoSeen).2
  = ["Finance - shop.example"].
Proof.
  assert (Hdom : matchAtDomain (senderHeader Scenario.invoice)
                 = Some "shop.example") by (vm_compute; reflexivity).
  assert (Hid : "Label_7" <> "") by discriminate.
  assert (Hname : objGet (gmailLabels Scenario.twoSeen) "Label_7"
                  = Some "Finance") by (vm_compute; reflexivity).
  assert (Hspam : "Finance" <> SPAM_LABEL_NAME) by discriminate.
  destruct (proj2 (analyzeForPatterns_learns Scenario.invoice "Label_7"
                     "Finance" Scenario.twoSeen Hname)
              "shop.example" Hdom Hid Hspam)
    as (_ & Hnew & _).
  rewrite Hnew.
  - vm_compute. reflexivity.
  - split.
    + vm_compute. lia.
    + apply nameUnusedb_spec. vm_compute. reflexivity.
Defined.

(** C4, as stated, fails.  A user rule may target the label the Spam
    Classifier uses; for a message it labels, the Pattern Learner returns
    before touching the counter, so the third observation of the pair
    neither counts nor yields a suggestion although no suggestion and no
    label of the derived name exists. *)
Lemma spam_named_label_counterexample :
  let s := Scenario.spamTarget in
  let s' := (analyzeForPatterns Scenario.invoice ["Label_9"] s).2 in
  matchAtDomain (senderHeader Scenario.invoice) = Some "shop.example"
  /\ domainLabelCounts s !! countKey "shop.example" "Label_9" = Some 2%nat
  /\ nameUnusedb "ExtensionSpam - shop.example" s = true
  /\ domainLabelCounts s' !! countKey "shop.example" "Label_9" = Some 2%nat
  /\ suggestedLabels s' = []
  /\ (processFetched "m3" Scenario.invoice s).1 = tt
  /\ domainLabelCounts (processFetched "m3" Scenario.invoice s).2
       !! countKey "shop.example" "Label_9" = Some 2%nat
  /\ suggestedLabels (processFetched "m3" Scenario.invoice s).2 = [].
Proof. vm_compute. repeat split. Qed.

(** ** Suggestion Store *)

Section StoreFacts.
Context {RT : Runtime} {W : Type} `{Browser W}.

Lemma findIndex_Some {A} (p : A -> bool) (l : list A) i :
  findIndex p l = Some i -> exists x, l !! i = Some x /\ p x = true.
Proof.
  revert i. induction l as [|a l IH]; intros i; [done |]. simpl.
  destruct (p a) eqn:Hp.
  - intros [= <-]. by exists a.
  - destruct (findIndex p l) as [j|]; [|done].
    intros [= <-]. by apply IH.
Qed.

Lemma findIndex_None {A} (p : A -> bool) (l : list A) :
  findIndex p l = None <-> forall x, In x l -> p x = false.
Proof.
  induction l as [|a l IH]; simpl; [by split |].
  destruct (p a) eqn:Hp.
  - split; [done |]. intros Hall. rewrite (Hall a) in Hp; [done | by left].
  - destruct (findIndex p l) as [j|].
    + split; [done |]. intros Hall.
      assert (Some j = None) as Hj; [|done].
      apply IH. intros x Hx. apply Hall. by right.
    + split; [|done]. intros _ x [<- | Hx]; [done |]. by apply IH.
Qed.

Lemma known_id_found id (l : list Suggestion) :
  (exists g, In g l /\ sg_id g = id) <->
  exists i, findIndex (hasId id) l = Some i.
Proof.
  split.
  - intros (g & Hin & Hg).
    destruct (findIndex (hasId id) l) as [i|] eqn:Hf; [eauto |].
    pose proof (proj1 (findIndex_None _ _) Hf g Hin) as Hn.
    unfold hasId in Hn. apply String.eqb_neq in Hn. done.
  - intros [i (g & Hi & Hg)%findIndex_Some]. exists g. split.
    + apply list_elem_of_In. by eapply list_elem_of_lookup_2.
    + by apply String.eqb_eq.
Qed.

Lemma approve_eq g (s : State W) :
  approve g s =
  match createLabelIfNeeded (sg_name g) s with
  | (Some l, s1) =>
      (set_createdLabelId (Some l) (set_status approved g),
       if autoCreateLabels (userSettings s1)
       then withRule (mkRule "sender" ("@" +:+ basedOnDomain g) (Some l)
                        (sg_name g)) s1
       else s1)
  | (None, s1) => (set_status failed_creation g, s1)
  end.
Proof.
  unfold approve. rewrite bind_eq.
  destruct (createLabelIfNeeded (sg_name g) s) as [[l|] s1]; [|done].
  cbn [fst snd]. rewrite bind_eq. cbn [get fst snd]. rewrite bind_eq.
  by destruct (autoCreateLabels (userSettings s1)).
Qed.

Lemma approve_result g (s : State W) :
  sg_name (approve g s).1 = sg_name g
  /\ sg_id (approve g s).1 = sg_id g
  /\ (sg_status (approve g s).1 = approved
      \/ sg_status (approve g s).1 = failed_creation).
Proof.
  rewrite approve_eq.
  destruct (createLabelIfNeeded (sg_name g) s) as [[l|] s1]; simpl; eauto.
Qed.

Lemma approveSuggestion_eq id i g (s : State W) :
  findIndex (hasId id) (suggestedLabels s) = Some i ->
  suggestedLabels s !! i = Some g ->
  approveSuggestion id s =
  (SuccessSuggestion (approve g s).1,
   set_suggestedLabels (<[i := (approve g s).1]> (suggestedLabels s))
     (approve g s).2).
Proof.
  intros Hf Hi. unfold approveSuggestion.
  rewrite bind_eq. cbn [get fst snd]. rewrite Hf, Hi.
  rewrite bind_eq. by rewrite bind_eq.
Qed.

Lemma approveSuggestion_unknown id (s : State W) :
  findIndex (hasId id) (suggestedLabels s) = None ->
  approveSuggestion id s = (Failure "Suggestion not found.", s).
Proof.
  intros Hf. unfold approveSuggestion.
  rewrite bind_eq. cbn [get fst snd]. by rewrite Hf.
Qed.

Lemma rejectSuggestion_eq id (s : State W) :
  rejectSuggestion id s =
  match findIndex (hasId id) (suggestedLabels s) with
  | Some i =>
      (SuccessId id,
       set_suggestedLabels (alter (set_status rejected) i (suggestedLabels s)) s)
  | None => (Failure "Suggestion not found.", s)
  end.
Proof.
  unfold rejectSuggestion. rewrite bind_eq. cbn [get fst snd].
  by destruct (findIndex (hasId id) (suggestedLabels s)).
Qed.

Lemma alter_found {A} (f : A -> A) (l : list A) i x :
  l !! i = Some x -> alter f i l = <[i := f x]> l.
Proof.
  revert i. induction l as [|a l IH]; intros [|i] Hi; try done.
  - by injection Hi as ->.
  - simpl in *. f_equal. by apply IH.
Qed.

(** C1, as the code has it.  The handlers look the suggestion up by id
    and never read its status.  On an id no stored suggestion has, both
    fail with [Suggestion not found.] and leave the whole state as it
    was.  On a stored id both succeed whatever the status of the
    suggestion found: reject sets it to [rejected]; approve sets it to
    [approved] and records the label id when the Label Resolver obtains
    the label, whatever [autoCreateLabels] says, and sets it to
    [failed_creation] when the resolver obtains none. *)
Theorem suggestion_handlers_by_id (id : string) (s : State W) :
  ((forall g, In g (suggestedLabels s) -> sg_id g <> id) ->
     approveSuggestion id s = (Failure "Suggestion not found.", s)
     /\ rejectSuggestion id s = (Failure "Suggestion not found.", s))
  /\ (forall i g,
        findIndex (hasId id) (suggestedLabels s) = Some i ->
        suggestedLabels s !! i = Some g ->
        rejectSuggestion id s =
          (SuccessId id,
           set_suggestedLabels
             (<[i := set_status rejected g]> (suggestedLabels s)) s)
        /\ exists g',
             (approveSuggestion id s).1 = SuccessSuggestion g'
             /\ suggestedLabels (approveSuggestion id s).2
                = <[i := g']> (suggestedLabels s)
             /\ (sg_status g' = approved \/ sg_status g' = failed_creation)
             /\ (forall lid,
                   (createLabelIfNeeded (sg_name g) s).1 = Some lid ->
                   g' = set_createdLabelId (Some lid) (set_status approved g))
             /\ ((createLabelIfNeeded (sg_name g) s).1 = None ->
                 g' = set_status failed_creation g))
  /\ (success (approveSuggestion id s).1 = true <->
      exists g, In g (suggestedLabels s) /\ sg_id g = id)
  /\ (success (rejectSuggestion id s).1 = true <->
      exists g, In g (suggestedLabels s) /\ sg_id g = id).
Proof.
  split; [|split; [|split]].
  - intros Hno.
    assert (Hf : findIndex (hasId id) (suggestedLabels s) = None).
    { apply findIndex_None. intros g Hin. apply String.eqb_neq. by apply Hno. }
    by rewrite approveSuggestion_unknown, rejectSuggestion_eq, Hf.
  - intros i g Hf Hi. split.
    + by rewrite rejectSuggestion_eq, Hf, (alter_found _ _ _ _ Hi).
    + exists (approve g s).1.
      rewrite (approveSuggestion_eq id i g s Hf Hi). cbn [fst snd].
      split; [done |]. split; [done |]. split; [apply approve_result |].
      rewrite approve_eq.
      destruct (createLabelIfNeeded (sg_name g) s) as [[l|] s1];
        cbn [fst snd]; split; try done.
      by intros lid [= ->].
  - rewrite known_id_found.
    destruct (findIndex (hasId id) (suggestedLabels s)) as [i|] eqn:Hf.
    + destruct (findIndex_Some _ _ _ Hf) as (g & Hi & _).
      rewrite (approveSuggestion_eq id i g s Hf Hi). simpl. split; eauto.
    + rewrite (approveSuggestion_unknown id s Hf). simpl.
      split; [done | by intros [i Hi]].
  - rewrite known_id_found, rejectSuggestion_eq.
    destruct (findIndex (hasId id) (suggestedLabels s)) as [i|] eqn:Hf;
      simpl; split; eauto; [done | by intros [i Hi]].
Qed.

(** C7. Approving a pending suggestion when the label is obtained and
    [autoCreateLabels] is set marks the suggestion [approved], records
    the label id in it, appends to the rule list exactly one rule, of
    type [sender], with value [@<basedOnDomain>] and bound to that
    label, and saves the extended rule list in [chrome.storage.sync]. *)
Theorem approveSuggestion_creates_rule (id : string) (i : nat)
    (g : Suggestion) (lid : string) (s : State W) :
  findIndex (hasId id) (suggestedLabels s) = Some i ->
  suggestedLabels s !! i = Some g ->
  sg_status g = pending ->
  autoCreateLabels (userSettings s) = true ->
  (createLabelIfNeeded (sg_name g) s).1 = Some lid ->
  let s' := (approveSuggestion id s).2 in
  let g' := set_createdLabelId (Some lid) (set_status approved g) in
  let rule :=
    mkRule "sender" ("@" +:+ basedOnDomain g) (Some lid) (sg_name g) in
  (approveSuggestion id s).1 = SuccessSuggestion g'
  /\ sg_status g' = approved /\ createdLabelId g' = Some lid
  /\ suggestedLabels s' = <[i := g']> (suggestedLabels s)
  /\ rules (userSettings s') = rules (userSettings s) ++ [rule]
  /\ sv_rules <$> sync_userSettings s' = Some (rules (userSettings s')).
Proof.
  intros Hf Hi _ Hauto Hlid s' g' rule. subst s'.
  rewrite (approveSuggestion_eq id i g s Hf Hi), approve_eq.
  pose proof (createLabelIfNeeded_pres (@sameStore W) (sg_name g) s) as Hsame.
  unfold pres in Hsame.
  destruct (createLabelIfNeeded (sg_name g) s) as [[l|] s1]; [|done].
  cbn [fst snd] in *. injection Hlid as ->.
  destruct Hsame as (Hu & _). rewrite Hu, Hauto. by rewrite <- Hu.
Qed.

Lemma keepsUnique_same (s s' : State W) :
  suggestedLabels s' = suggestedLabels s -> keepsUnique s s'.
Proof. unfold keepsUnique, uniqueNames. by intros ->. Qed.

#[global] Instance keepsUnique_label : LabelFrame (keepsUnique (W:=W)).
Proof.
  split; try (intros; by apply keepsUnique_same).
  unfold keepsUnique. eauto.
Qed.

#[global] Instance keepsUnique_cycle : CycleFrame (keepsUnique (W:=W)).
Proof.
  split; [tc_solve | intros; by apply keepsUnique_same.. |].
  intros g s Hfresh _. unfold keepsUnique, uniqueNames, lowerNames.
  cbn [suggestedLabels set_suggestedLabels]. rewrite fmap_app.
  intros Hnd. apply NoDup_app. split; [done |]. split.
  - intros x (g' & Hx & Hin)%list_elem_of_fmap Hg. subst x.
    apply list_elem_of_singleton in Hg. apply list_elem_of_In in Hin.
    by apply (proj1 (find_sameName_None (sg_name g) _) Hfresh g').
  - apply NoDup_singleton.
Qed.

Lemma lowerNames_insert (l : list Suggestion) i g g' :
  l !! i = Some g -> sg_name g' = sg_name g ->
  lowerNames (<[i := g']> l) = lowerNames l.
Proof.
  intros Hi Hn. unfold lowerNames. rewrite list_fmap_insert. cbv beta.
  rewrite Hn. apply list_insert_id. by rewrite list_lookup_fmap, Hi.
Qed.

Lemma step_keepsUnique (s s' : State W) : step s s' -> keepsUnique s s'.
Proof.
  destruct 1 as [m ids s | id s | id s | id b s | s | s s' Hsame].
  - apply (analyzeForPatterns_pres (keepsUnique (W:=W))).
  - destruct (findIndex (hasId id) (suggestedLabels s)) as [i|] eqn:Hf.
    + destruct (findIndex_Some _ _ _ Hf) as (g & Hi & _).
      rewrite (approveSuggestion_eq id i g s Hf Hi).
      unfold keepsUnique, uniqueNames. cbn [snd suggestedLabels set_suggestedLabels].
      rewrite (lowerNames_insert _ i g); [done | done |].
      apply approve_result.
    + rewrite (approveSuggestion_unknown id s Hf). by apply keepsUnique_same.
  - rewrite rejectSuggestion_eq.
    destruct (findIndex (hasId id) (suggestedLabels s)) as [i|] eqn:Hf;
      [|by apply keepsUnique_same].
    destruct (findIndex_Some _ _ _ Hf) as (g & Hi & _).
    rewrite (alter_found _ _ _ _ Hi).
    unfold keepsUnique, uniqueNames. cbn [snd suggestedLabels set_suggestedLabels].
    by rewrite (lowerNames_insert _ i g).
  - unfold onButtonClicked. rewrite bind_eq. cbn [get fst snd].
    destruct (findIndex (hasId id) (suggestedLabels s)) as [i|] eqn:Hf;
      [|by apply keepsUnique_same].
    destruct (findIndex_Some _ _ _ Hf) as (g & Hi & _). rewrite Hi.
    rewrite bind_eq.
    unfold keepsUnique, uniqueNames.
    cbn [modify snd suggestedLabels set_suggestedLabels].
    rewrite (lowerNames_insert _ i g); [done | done |].
    destruct b as [|[|b]]; [apply approve_result | done | done].
  - change (pres (keepsUnique (W:=W)) processUnreadEmails s).
    unfold processUnreadEmails, loadSettings, recordTimestamp.
    repeat pres_step;
      try (apply getLabels_pres; tc_solve);
      try (apply forEach_pres; [tc_solve |];
           intros; apply processEmail_pres; tc_solve);
      try (apply keepsUnique_same; done).
    apply keepsUnique_same. by destruct (sync_userSettings s).
  - by apply keepsUnique_same.
Qed.

Lemma reachable_uniqueNames (s : State W) : reachable s -> uniqueNames s.
Proof.
  intros (s0 & Hempty & Hrun).
  assert (H0 : uniqueNames s0).
  { unfold uniqueNames. rewrite Hempty. apply NoDup_nil_2. }
  clear Hempty. induction Hrun as [s | s1 s2 s3 Hstep _ IH]; [done |].
  apply IH. by apply (step_keepsUnique s1 s2).
Qed.

Lemma lowerNames_cons g (l : list Suggestion) :
  lowerNames (g :: l) = toLowerCase (sg_name g) :: lowerNames l.
Proof. reflexivity. Qed.

Lemma filter_other_names name g (l : list Suggestion) :
  sameName name g = true ->
  toLowerCase (sg_name g) ∉ lowerNames l ->
  List.filter (fun g => sameName name g && active g) l = [].
Proof.
  intros Hg%String.eqb_eq. induction l as [|g' l IH]; [done |].
  rewrite lowerNames_cons. intros [Hne Hnotin]%not_elem_of_cons.
  cbn [List.filter]. destruct (sameName name g') eqn:Hg'.
  - apply String.eqb_eq in Hg'. congruence.
  - by apply IH.
Qed.

Lemma unique_filter_active name (l : list Suggestion) :
  NoDup (lowerNames l) ->
  (length (List.filter (fun g => sameName name g && active g) l) <= 1)%nat.
Proof.
  induction l as [|g l IH]; [simpl; lia |].
  rewrite lowerNames_cons. intros [Hnotin Hnd]%NoDup_cons.
  cbn [List.filter]. destruct (sameName name g) eqn:Hg; [|by apply IH].
  rewrite (filter_other_names name g l Hg Hnotin).
  destruct (active g); simpl; lia.
Qed.

Lemma uniqueNames_atMostOneActive (s : State W) : uniqueNames s -> atMostOneActive s.
Proof. intros Hnd name. by apply unique_filter_active. Qed.

(** C9. In every state reached from an empty suggestion store by
    Pattern Learner observations, approvals, rejections, notification
    buttons and processing cycles, at most one suggestion of any given
    name, compared case-insensitively, is pending or approved. *)
Theorem suggestion_names_unique (s : State W) :
  reachable s -> atMostOneActive s.
Proof.
  intros Hr. by apply uniqueNames_atMostOneActive, reachable_uniqueNames.
Qed.

End StoreFacts.

Lemma approveSuggestion_creates_rule_witness :
  r_value <$> rules (userSettings (approveSuggestion "c" Scenario.decidedStore).2)
  = ["invoice"; "@c.example"].
Proof.
  assert (Hf : findIndex (hasId "c") (suggestedLabels Scenario.decidedStore)
               = Some 2%nat) by (vm_compute; reflexivity).
  assert (Hi : suggestedLabels Scenario.decidedStore !! 2%nat
               = Some (Scenario.suggestion "c" pending))
    by (vm_compute; reflexivity).
  assert (Hp : sg_status (Scenario.suggestion "c" pending) = pending)
    by reflexivity.
  assert (Ha : autoCreateLabels (userSettings Scenario.decidedStore) = true)
    by reflexivity.
  assert (Hl : (createLabelIfNeeded (sg_name (Scenario.suggestion "c" pending))
                  Scenario.decidedStore).1
               = Some "Label_Finance - c.example")
    by (vm_compute; reflexivity).
  destruct (approveSuggestion_creates_rule "c" 2 (Scenario.suggestion "c" pending)
              "Label_Finance - c.example" Scenario.decidedStore Hf Hi Hp Ha Hl)
    as (_ & _ & _ & _ & Hr & _).
  rewrite Hr. vm_compute. reflexivity.
Defined.

Lemma suggestion_names_unique_witness :
  atMostOneActive
    (approveSuggestion "sugg_1700000000000"
       (analyzeForPatterns Scenario.invoice ["Label_7"] Scenario.twoSeen).2).2.
Proof.
  apply suggestion_names_unique. exists Scenario.twoSeen. split.
  - reflexivity.
  - eapply rtc_l; [apply step_learn |]. apply rtc_once, step_approve.
Defined.

(** C1, as stated, fails.  Approving the rejected suggestion [a] succeeds,
    turns it into an approved one and appends a rule; rejecting the
    approved suggestion [b] succeeds and turns it into a rejected one. *)
Lemma decided_suggestion_counterexample :
  let s := Scenario.decidedStore in
  sg_status <$> suggestedLabels s = [rejected; approved; pending]
  /\ success (approveSuggestion "a" s).1 = true
  /\ sg_status <$> suggestedLabels (approveSuggestion "a" s).2
     = [approved; approved; pending]
  /\ length (rules (userSettings (approveSuggestion "a" s).2)) = 2%nat
  /\ length (rules (userSettings s)) = 1%nat
  /\ success (rejectSuggestion "b" s).1 = true
  /\ sg_status <$> suggestedLabels (rejectSuggestion "b" s).2
     = [rejected; rejected; pending].
Proof. vm_compute. repeat split. Qed.

(** * Further properties of the code *)

(** ** Spam Classifier: configuration edge cases and the sender domain *)

Section SpamFacts.
Context {RT : Runtime}.
Implicit Types (s t d pre post : string) (c : ascii).

Lemma containsCI_empty s : containsCI s "".
Proof. unfold containsCI. rewrite toLowerCase_empty. by exists "", (toLowerCase s). Qed.

Lemma hasSuffix_empty s : hasSuffix s "".
Proof. exists s. by rewrite append_nil_r. Qed.

(** X1. With spam detection enabled, an empty string among the spam
    keywords or among the suspicious domains makes [isSpam] flag every
    message: the empty string is a substring of every subject and a
    suffix of every sender domain. *)
Theorem isSpam_empty_entry (u : Settings) (m : Message) :
  enableSpamDetection u = true ->
  In "" (spamKeywords u) \/ In "" (spamSenderDomains u) ->
  isSpam u m = true.
Proof.
  intros Hen Hin. apply isSpam_iff. split; [done |].
  unfold spamHeuristics. destruct Hin as [Hk | Hd].
  - left. exists "". split; [done | apply containsCI_empty].
  - right. left. exists "". split; [done |].
    rewrite toLowerCase_empty. apply hasSuffix_empty.
Qed.

(** X2. Adding keywords or suspicious domains never clears a message:
    whatever is spam under one configuration is spam under every enabled
    configuration that has at least the same keywords and domains. *)
Theorem isSpam_monotone (u u' : Settings) (m : Message) :
  enableSpamDetection u' = true ->
  incl (spamKeywords u) (spamKeywords u') ->
  incl (spamSenderDomains u) (spamSenderDomains u') ->
  isSpam u m = true -> isSpam u' m = true.
Proof.
  intros Hen Hk Hd [_ Hspam]%isSpam_iff. apply isSpam_iff. split; [done |].
  unfold spamHeuristics in *.
  destruct Hspam as [(k & Hin & Hc) | [(d & Hin & Hc) | Hrest]].
  - left. exists k. split; [by apply Hk | done].
  - right. left. exists d. split; [by apply Hd | done].
  - by do 2 right.
Qed.

Lemma contains_char_nil c : ~ contains "" (String c "").
Proof. by apply includes_false. Qed.

Lemma contains_char_cons a t c :
  contains (String a t) (String c "") <-> a = c \/ contains t (String c "").
Proof.
  rewrite <- !includes_contains.
  change (includes (String a t) (String c ""))
    with (Ascii.eqb c a && true || includes t (String c "")).
  rewrite andb_true_r, orb_true_iff, ascii_eqb_true. intuition congruence.
Qed.

Lemma contains_char_app s t c :
  contains (s +:+ t) (String c "") <->
  contains s (String c "") \/ contains t (String c "").
Proof.
  induction s as [|a s IH].
  - rewrite append_nil_l. pose proof (contains_char_nil c). tauto.
  - rewrite append_cons, !contains_char_cons, IH. tauto.
Qed.

Lemma afterLast_last c pre t :
  ~ contains t (String c "") -> afterLast c (pre +:+ String c t) = t.
Proof.
  intros Ht. induction pre as [|a pre IH].
  - rewrite append_nil_l. simpl.
    apply includes_false in Ht. by rewrite Ht, Ascii.eqb_refl.
  - rewrite append_cons. simpl.
    assert (includes (pre +:+ String c t) (String c "") = true) as ->; [|done].
    apply includes_contains, contains_char_app. right.
    apply contains_char_cons. by left.
Qed.

Lemma removeFirst_first c d rest :
  ~ contains d (String c "") ->
  removeFirst c (d +:+ String c rest) = d +:+ rest.
Proof.
  induction d as [|a d IH]; intros Hd.
  - rewrite !append_nil_l. simpl. by rewrite Ascii.eqb_refl.
  - rewrite !append_cons. simpl.
    destruct (Ascii.eqb_spec a c) as [->|Hne].
    + destruct Hd. apply contains_char_cons. by left.
    + rewrite IH; [done |]. intros Hc. apply Hd.
      apply contains_char_cons. by right.
Qed.

(** X3. For a sender header that ends in [@d>], where [d] has neither
    [@] nor [>] in it (the usual [Name <user@host>] form), the sender
    domain [isSpam] works with is exactly [d]. *)
Theorem senderDomainOf_bracketed pre d :
  ~ contains d "@" -> ~ contains d ">" ->
  senderDomainOf (pre +:+ "@" +:+ d +:+ ">") = d.
Proof.
  intros Hat Hgt. rewrite senderDomainOf_spec. unfold domainFirstRemoved.
  change ("@" +:+ d +:+ ">") with (String "@" (d +:+ ">")).
  rewrite afterLast_last.
  - rewrite removeFirst_first; [apply append_nil_r | done].
  - intros [Hd | Hc]%contains_char_app; [done |].
    apply contains_char_cons in Hc as [Hc | Hc]; [done |].
    by apply contains_char_nil in Hc.
Qed.

End SpamFacts.

Lemma senderDomainOf_bracketed_witness :
  senderDomainOf "orders <orders@shop.example>" = "shop.example".
Proof.
  apply (senderDomainOf_bracketed "orders <orders" "shop.example");
    apply includes_false; vm_compute; reflexivity.
Defined.

Lemma isSpam_empty_entry_witness :
  isSpam (mkSettings [] [""] [] true 5 true true None) Scenario.invoice = true.
Proof.
  apply isSpam_empty_entry; [reflexivity | left; left; reflexivity].
Defined.

Lemma isSpam_monotone_witness :
  isSpam (mkSettings [] ["invoice"; "offer"] [] true 5 true true None)
    Scenario.invoice = true.
Proof.
  apply (isSpam_monotone (mkSettings [] ["invoice"] [] true 5 true true None)).
  - reflexivity.
  - intros k [<- | []]. by left.
  - intros d [].
  - vm_compute. reflexivity.
Defined.

(** ** Pattern Learner: the domain pattern and the counter key *)

Section DomainFacts.
Implicit Types (s t d pre post : string) (c : ascii).

Lemma takeDomainChars_all s : allChars isDomainChar (takeDomainChars s) = true.
Proof.
  induction s as [|a t IH]; [done |]. simpl.
  destruct (isDomainChar a) eqn:Ha; [|done]. simpl. by rewrite Ha.
Qed.

Lemma takeDomainChars_split s :
  exists post, s = takeDomainChars s +:+ post /\ endsRun post.
Proof.
  induction s as [|a t (post & Ht & Hpost)]; [by exists "" |]. simpl.
  destruct (isDomainChar a) eqn:Ha.
  - exists post. rewrite append_cons. by rewrite <- Ht.
  - by exists (String a t).
Qed.

Lemma takeDomainChars_empty s :
  takeDomainChars s = "" -> endsRun s.
Proof.
  destruct s as [|a t]; [done |]. simpl.
  by destruct (isDomainChar a).
Qed.

(** X4. The domain pattern [/@([\w.-]+)/]: a captured domain is never
    empty, consists of letters, digits, [_], [.] and [-] only, stands in
    the header right after an [@] and is a maximal such run; there is no
    match exactly when no [@] of the header is followed by such a
    character. *)
Theorem matchAtDomain_spec (h : string) :
  (forall d, matchAtDomain h = Some d ->
     d <> "" /\ allChars isDomainChar d = true
     /\ exists pre post, h = pre +:+ "@" +:+ d +:+ post /\ endsRun post)
  /\ (matchAtDomain h = None <->
      forall pre post, h = pre +:+ "@" +:+ post -> endsRun post).
Proof.
  induction h as [|a t [IHs IHn]].
  - split; [done |]. split; [|done].
    intros _ pre post Hh. destruct pre; discriminate.
  - simpl.
    destruct (Ascii.eqb_spec a "@") as [->|Hne]; simpl;
      [destruct (truthy (takeDomainChars t)) eqn:Htr|].
    + split.
      * intros d [= <-]. split; [by apply truthy_true |].
        split; [apply takeDomainChars_all |].
        destruct (takeDomainChars_split t) as (post & Ht & Hpost).
        exists "", post. split; [|done]. by rewrite Ht at 1.
      * split; [done |]. intros Hall. exfalso.
        specialize (Hall "" t eq_refl).
        apply truthy_true in Htr. apply Htr.
        destruct t as [|c r]; [done |]. simpl in *. by rewrite Hall.
    + assert (Hrun : endsRun t).
      { apply takeDomainChars_empty.
        unfold truthy in Htr. apply negb_false_iff in Htr.
        by apply String.eqb_eq. }
      split.
      * intros d (Hd & Hall & pre & post & -> & Hpost)%IHs.
        repeat split; try done. by exists (String "@" pre), post.
      * rewrite IHn. split.
        -- intros Hall [|b pre] post Hh.
           ++ change ("" +:+ "@" +:+ post) with (String "@" post) in Hh.
              by injection Hh as <-.
           ++ rewrite append_cons in Hh. injection Hh as _ ->. by eapply Hall.
        -- intros Hall pre post ->. by apply (Hall (String "@" pre) post).
    + split.
      * intros d (Hd & Hall & pre & post & -> & Hpost)%IHs.
        repeat split; try done. by exists (String a pre), post.
      * rewrite IHn. split.
        -- intros Hall [|b pre] post Hh.
           ++ change ("" +:+ "@" +:+ post) with (String "@" post) in Hh.
              by injection Hh as ->.
           ++ rewrite append_cons in Hh. injection Hh as _ ->. by eapply Hall.
        -- intros Hall pre post ->. by apply (Hall (String a pre) post).
Qed.

(** X5. The counter key [<domain>:::<labelId>] tells pairs apart: for
    domains the pattern can capture, two pairs share a key only when both
    the domains and the label ids are equal, whatever the label ids
    contain. *)
Theorem countKey_injective d1 i1 d2 i2 :
  allChars isDomainChar d1 = true ->
  allChars isDomainChar d2 = true ->
  countKey d1 i1 = countKey d2 i2 ->
  d1 = d2 /\ i1 = i2.
Proof.
  assert (Hnil : forall i,
            countKey "" i = String ":" (String ":" (String ":" i))) by done.
  assert (Hcons : forall a d i,
            countKey (String a d) i = String a (countKey d i)) by done.
  revert d2.
  induction d1 as [|a d1 IH]; intros [|b d2] H1 H2 Hk.
  - rewrite !Hnil in Hk. by injection Hk as ->.
  - rewrite Hnil, Hcons in Hk. injection Hk as <- _.
    by apply andb_true_iff in H2 as [H2 _].
  - rewrite Hnil, Hcons in Hk. injection Hk as -> _.
    by apply andb_true_iff in H1 as [H1 _].
  - rewrite !Hcons in Hk. injection Hk as -> Hk.
    apply andb_true_iff in H1 as [_ H1]. apply andb_true_iff in H2 as [_ H2].
    destruct (IH d2 H1 H2 Hk) as [-> ->]. done.
Qed.

End DomainFacts.

Lemma countKey_injective_witness :
  "shop.example" = "shop.example" /\ "Label:::7" = "Label:::7".
Proof.
  apply (countKey_injective "shop.example" "Label:::7" "shop.example"
           "Label:::7"); reflexivity.
Defined.

(** ** Label Resolver *)

Section ResolverFacts.
Context {RT : Runtime} {W : Type} `{Browser W}.

Lemma objGet_cons k v (o : JsObject) id :
  objGet ((k, v) :: o) id = if String.eqb k id then Some v else objGet o id.
Proof. unfold objGet. simpl. by destruct (String.eqb k id). Qed.

Lemma objSet_cons k' v' (o : JsObject) k v :
  objSet ((k', v') :: o) k v =
  if String.eqb k' k then (k, v) :: o else (k', v') :: objSet o k v.
Proof. reflexivity. Qed.

Lemma objGet_objSet (o : JsObject) k v id :
  objGet (objSet o k v) id = if String.eqb k id then Some v else objGet o id.
Proof.
  induction o as [|[k' v'] o IH].
  - by rewrite (objGet_cons k v []).
  - rewrite objSet_cons, (objGet_cons k' v').
    destruct (String.eqb_spec k' k) as [->|Hne].
    + rewrite objGet_cons. by destruct (String.eqb k id).
    + rewrite objGet_cons, IH.
      destruct (String.eqb_spec k' id) as [<-|_]; [|done].
      destruct (String.eqb_spec k k') as [->|_]; done.
Qed.

Lemma objSet_keys (o : JsObject) k v x :
  x ∈ (objSet o k v).*1 <-> x = k \/ x ∈ o.*1.
Proof.
  induction o as [|[k' v'] o IH].
  - simpl. rewrite list_elem_of_singleton, elem_of_nil. tauto.
  - rewrite objSet_cons. destruct (String.eqb_spec k' k) as [->|Hne].
    + rewrite !fmap_cons. simpl. rewrite !elem_of_cons. tauto.
    + rewrite !fmap_cons. simpl. rewrite !elem_of_cons, IH. tauto.
Qed.

Lemma objSet_NoDup (o : JsObject) k v : NoDup o.*1 -> NoDup (objSet o k v).*1.
Proof.
  induction o as [|[k' v'] o IH]; intros Hnd.
  - simpl. apply NoDup_singleton.
  - rewrite objSet_cons. rewrite fmap_cons in Hnd.
    apply NoDup_cons in Hnd as [Hnotin Hnd].
    destruct (String.eqb_spec k' k) as [->|Hne].
    + rewrite fmap_cons. by apply NoDup_cons.
    + rewrite fmap_cons. apply NoDup_cons. split; [|by apply IH].
      simpl in *. rewrite objSet_keys. intros [->|Hin]; done.
Qed.

Lemma objSet_fresh (o : JsObject) k v : k ∉ o.*1 -> objSet o k v = o ++ [(k, v)].
Proof.
  induction o as [|[k' v'] o IH]; intros Hk; [done |].
  rewrite fmap_cons in Hk. apply not_elem_of_cons in Hk as [Hne Hk].
  rewrite objSet_cons. simpl in Hne.
  destruct (String.eqb_spec k' k) as [->|_]; [done |].
  by rewrite IH.
Qed.

Lemma refreshed_NoDup acc labels :
  NoDup acc.*1 -> NoDup (refreshed acc labels).*1.
Proof.
  revert acc. induction labels as [|[k v] labels IH]; intros acc Hnd; [done |].
  apply IH. by apply objSet_NoDup.
Qed.

Lemma find_app_first {A} (p : A -> bool) (a b : list A) :
  find p (a ++ b) = match find p a with Some y => Some y | None => find p b end.
Proof.
  induction a as [|x a IH]; [done |]. simpl. by destruct (p x).
Qed.

Lemma refreshed_lookup acc labels id :
  objGet (refreshed acc labels) id =
  match find (fun l => String.eqb (fst l) id) (reverse labels) with
  | Some l => Some (snd l)
  | None => objGet acc id
  end.
Proof.
  revert acc. induction labels as [|[k v] labels IH]; intros acc; [done |].
  change (refreshed acc ((k, v) :: labels))
    with (refreshed (objSet acc k v) labels).
  rewrite IH, reverse_cons, find_app_first, objGet_objSet.
  destruct (find _ (reverse labels)); [done |]. simpl.
  by destruct (String.eqb k id).
Qed.

Lemma refreshed_distinct labels :
  NoDup labels.*1 -> refreshed [] labels = labels.
Proof.
  assert (Hgen : forall acc, NoDup (acc ++ labels).*1 ->
                   refreshed acc labels = acc ++ labels).
  { induction labels as [|[k v] labels IH]; intros acc Hnd.
    - by rewrite app_nil_r.
    - change (refreshed acc ((k, v) :: labels))
        with (refreshed (objSet acc k v) labels).
      pose proof Hnd as Hall.
      rewrite fmap_app, fmap_cons in Hnd.
      apply NoDup_app in Hnd as (Hacc & Hdisj & Hl).
      assert (Hk : k ∉ acc.*1).
      { intros Hin. apply (Hdisj k Hin). by left. }
      rewrite (objSet_fresh _ _ _ Hk), IH, <- app_assoc; [done |].
      rewrite <- app_assoc. exact Hall. }
  intros Hnd. by apply (Hgen []).
Qed.

Lemma getLabels_eq (s : State W) :
  getLabels s =
  match gmail_listLabels (world s) with
  | (ApiOk labels, w) =>
      (refreshed [] labels,
       set_gmailLabels (refreshed [] labels) (set_world w s))
  | (ApiNull, w) => ([], set_gmailLabels [] (set_world w s))
  | (ApiThrow, w) => ([], set_world w s)
  end.
Proof.
  unfold getLabels. rewrite bind_eq. unfold call.
  by destruct (gmail_listLabels (world s)) as [[labels| |] w].
Qed.

(** X6. After a label refresh that succeeds, the cache mirrors the
    server's list: every id appears once, and it is bound to the name of
    its last entry in the list.  A refresh that throws leaves the cache as
    it was and answers the empty object. *)
Theorem getLabels_mirrors (s : State W) :
  match (gmail_listLabels (world s)).1 with
  | ApiOk labels =>
      NoDup (gmailLabels (getLabels s).2).*1
      /\ (getLabels s).1 = gmailLabels (getLabels s).2
      /\ forall id,
           objGet (gmailLabels (getLabels s).2) id =
           snd <$> find (fun l => String.eqb (fst l) id) (reverse labels)
  | ApiNull => gmailLabels (getLabels s).2 = [] /\ (getLabels s).1 = []
  | ApiThrow =>
      gmailLabels (getLabels s).2 = gmailLabels s /\ (getLabels s).1 = []
  end.
Proof.
  rewrite getLabels_eq.
  destruct (gmail_listLabels (world s)) as [[labels| |] w]; simpl; try done.
  split; [apply refreshed_NoDup, NoDup_nil_2 |]. split; [done |].
  intros id. rewrite refreshed_lookup.
  by destruct (find _ (reverse labels)).
Qed.

Lemma objGet_In (o : JsObject) k v : In (k, v) o -> is_Some (objGet o k).
Proof.
  induction o as [|[k' v'] o IH]; [done |]. rewrite objGet_cons.
  intros [[= -> ->] | Hin].
  - by rewrite String.eqb_refl.
  - destruct (String.eqb k' k); [done | by apply IH].
Qed.

Lemma postLabel_eq name (s : State W) :
  postLabel name s =
  match gmail_createLabel name (world s) with
  | (ApiOk (id, n), w) =>
      if truthy id
      then (Some id, set_gmailLabels (objSet (gmailLabels s) id n)
                       (set_world w s))
      else (None, set_world w s)
  | (_, w) => (None, set_world w s)
  end.
Proof.
  unfold postLabel. rewrite bind_eq. unfold call.
  destruct (gmail_createLabel name (world s)) as [[[id n]| |] w]; try done.
  cbn [fst snd]. destruct (truthy id); [|done]. by rewrite bind_eq.
Qed.

Lemma postLabel_cached name id (s : State W) :
  (postLabel name s).1 = Some id ->
  id <> "" /\ is_Some (objGet (gmailLabels (postLabel name s).2) id).
Proof.
  rewrite postLabel_eq.
  destruct (gmail_createLabel name (world s)) as [[[id' n]| |] w]; try done.
  destruct (truthy id') eqn:Ht; [|done]. intros [= <-]. split.
  - by apply truthy_true.
  - cbn [snd gmailLabels set_gmailLabels].
    by rewrite objGet_objSet, String.eqb_refl.
Qed.

Lemma createLabelIfNeeded_eq name (s : State W) :
  createLabelIfNeeded name s =
  let s1 := (getLabels s).2 in
  match find (nameMatches name) (gmailLabels s1) with
  | Some (id, _) => if truthy id then (Some id, s1) else postLabel name s1
  | None => postLabel name s1
  end.
Proof.
  unfold createLabelIfNeeded. rewrite bind_eq, bind_eq. cbn [get fst snd].
  destruct (find _ _) as [[id n]|]; [|done]. by destruct (truthy id).
Qed.

(** X7. The Label Resolver touches nothing but the label cache and the
    outside world: settings, counters, suggestions, rule records,
    timestamps and the saved settings are as before.  An id it returns is
    never empty and is a key of the cache afterwards. *)
Theorem createLabelIfNeeded_contract name (s : State W) :
  sameStore s (createLabelIfNeeded name s).2
  /\ forall id,
       (createLabelIfNeeded name s).1 = Some id ->
       id <> "" /\ is_Some (objGet (gmailLabels (createLabelIfNeeded name s).2) id).
Proof.
  split; [apply (createLabelIfNeeded_pres (@sameStore W)) |].
  intros id. rewrite createLabelIfNeeded_eq. cbn zeta.
  destruct (find _ _) as [[id' n]|] eqn:Hf; [|apply postLabel_cached].
  destruct (truthy id') eqn:Ht; [|apply postLabel_cached].
  intros [= <-]. split; [by apply truthy_true |].
  apply find_some in Hf as [Hin _]. by apply (objGet_In _ _ n).
Qed.

(** X8. When the server's list has distinct, non-empty ids and holds a
    label of the wanted name up to case, the resolver answers the id of
    such a label and asks for nothing else: the outside world is the one
    the list request left, so no label was created. *)
Theorem createLabelIfNeeded_reuses name labels w (s : State W) :
  gmail_listLabels (world s) = (ApiOk labels, w) ->
  NoDup labels.*1 ->
  (forall l, In l labels -> fst l <> "") ->
  (exists l, In l labels /\ toLowerCase (snd l) = toLowerCase name) ->
  exists id n,
    In (id, n) labels /\ toLowerCase n = toLowerCase name
    /\ createLabelIfNeeded name s =
       (Some id, set_gmailLabels labels (set_world w s)).
Proof.
  intros Hlist Hnd Hids (l & Hin & Hl).
  rewrite createLabelIfNeeded_eq, getLabels_eq, Hlist.
  rewrite (refreshed_distinct _ Hnd). cbn [snd gmailLabels set_gmailLabels].
  destruct (find (nameMatches name) labels) as [[id n]|] eqn:Hf.
  - apply find_some in Hf as [Hid Hn]. exists id, n.
    split; [done |]. split; [by apply String.eqb_eq |].
    assert (Ht : truthy id = true) by (apply truthy_true, (Hids _ Hid)).
    by rewrite Ht.
  - pose proof (find_none _ _ Hf l Hin) as Hno.
    unfold nameMatches in Hno. apply String.eqb_neq in Hno. done.
Qed.

End ResolverFacts.

Lemma createLabelIfNeeded_reuses_witness :
  exists id n,
    In (id, n) [("Label_7", "Finance")] /\ toLowerCase n = toLowerCase "FINANCE"
    /\ createLabelIfNeeded "FINANCE" Scenario.twoSeen =
       (Some id, set_gmailLabels [("Label_7", "Finance")]
                   (set_world (Scenario.holding "Label_7" "Finance")
                      Scenario.twoSeen)).
Proof.
  apply createLabelIfNeeded_reuses.
  - reflexivity.
  - apply NoDup_singleton.
  - intros l [<- | []]. discriminate.
  - exists ("Label_7", "Finance"). split; [by left | reflexivity].
Defined.

(** ** Message processing: what it leaves alone *)

Section ProcessingFacts.
Context {RT : Runtime} {W : Type} `{Browser W}.

#[global] Instance sameSettings_label : LabelFrame (@sameSettings W).
Proof.
  split; unfold sameSettings; simpl; try done.
  intros s1 s2 s3 [? ?] [? ?]. split; congruence.
Qed.

#[global] Instance sameSettings_cycle : CycleFrame (@sameSettings W).
Proof. split; [tc_solve | ..]; unfold sameSettings; simpl; done. Qed.

#[global] Instance sameConfig_label : LabelFrame (@sameConfig W).
Proof.
  split; unfold sameConfig; simpl; try done.
  intros s1 s2 s3 ? ?. congruence.
Qed.

#[global] Instance sameConfig_cycle : CycleFrame (@sameConfig W).
Proof. split; [tc_solve | ..]; unfold sameConfig; simpl; done. Qed.

#[global] Instance grows_label : LabelFrame (@grows W).
Proof.
  split; unfold grows; simpl; try done.
  intros s1 s2 s3 [Hc1 Hp1] [Hc2 Hp2]. split.
  - intros key. specialize (Hc1 key). specialize (Hc2 key). lia.
  - by etrans.
Qed.

#[global] Instance grows_rule : RuleFrame (@grows W).
Proof. split; [tc_solve |]. unfold grows. simpl. done. Qed.

#[global] Instance nothingLearned_label : LabelFrame (@nothingLearned W).
Proof.
  split; unfold nothingLearned; simpl; try done.
  intros s1 s2 s3 (?&?&?) (?&?&?). repeat split; congruence.
Qed.

#[global] Instance nothingLearned_rule : RuleFrame (@nothingLearned W).
Proof. split; [tc_solve |]. unfold nothingLearned. simpl. done. Qed.

Section Rule.
Context (R : State W -> State W -> Prop) `{!RuleFrame R}.

Lemma applyRules_rule_pres id m rs s : pres R (applyRules id m rs) s.
Proof.
  revert s. induction rs as [|rule rest IH]; intros s.
  - apply pres_ret. tc_solve.
  - unfold pres. rewrite applyRules_cons.
    destruct (messageMatchesRule atob m rule); [|apply IH].
    pose proof (resolveTarget_pres R rule s) as Hr. unfold pres in Hr.
    destruct (resolveTarget rule s) as [[l|] s1]; simpl in *.
    + apply (frame_trans _ _ _ Hr). apply rule_messageRule.
    + apply (frame_trans _ _ _ Hr). apply IH.
Qed.

Lemma classify_rule_pres id m s : pres R (classify id m) s.
Proof.
  unfold pres. rewrite classify_eq.
  destruct (isSpam (userSettings s) m).
  - pose proof (createLabelIfNeeded_pres R SPAM_LABEL_NAME s) as Hc.
    unfold pres in Hc.
    by destruct (createLabelIfNeeded SPAM_LABEL_NAME s) as [[l|] s'].
  - pose proof (applyRules_rule_pres id m (rules (userSettings s)) s) as Ha.
    unfold pres in Ha.
    by destruct (applyRules id m (rules (userSettings s)) s) as [[l|] s'].
Qed.
End Rule.

Lemma forEach_label_pres (R : State W -> State W -> Prop) `{!LabelFrame R}
    {A} (f : A -> M W unit) l s :
  (forall x s', pres R (f x) s') -> pres R (forEach f l) s.
Proof.
  intros Hf. revert s. induction l as [|x l IH]; intros s; simpl.
  - apply pres_ret. tc_solve.
  - apply pres_bind; [tc_solve | apply Hf | intros; apply IH].
Qed.

Lemma analyzeForPatterns_grows m ids (s : State W) :
  grows s (analyzeForPatterns m ids s).2.
Proof.
  change (pres grows (analyzeForPatterns m ids) s).
  unfold analyzeForPatterns.
  destruct ids as [|i ids]; [apply pres_ret; tc_solve |].
  repeat pres_step.
  - split; [|done]. intros key.
    cbn [domainLabelCounts set_domainLabelCounts].
    match goal with
    | |- context [<[?k := _]> _ !! key] =>
        destruct (decide (k = key)) as [->|Hne];
          [rewrite lookup_insert_eq; simpl; lia
          | by rewrite lookup_insert_ne]
    end.
  - split; [done |]. cbn [suggestedLabels set_suggestedLabels].
    match goal with
    | E : call date_now ?s1 = _ |- _ =>
        unfold call in E; destruct (date_now (world s1)) as [now w];
        injection E as <- <-
    end.
    by apply prefix_app_r.
Qed.

Lemma processFetched_grows id m (s : State W) :
  grows s (processFetched id m s).2.
Proof.
  change (pres grows (processFetched id m) s). unfold processFetched.
  pres_step; [apply classify_rule_pres; tc_solve |].
  pres_step.
  - pres_step; [apply applyLabelsToMessage_pres; tc_solve
               | apply pres_ret; tc_solve].
  - pres_step. pres_step;
      [apply analyzeForPatterns_grows | apply pres_ret; tc_solve].
Qed.

Lemma processEmail_grows id (s : State W) : grows s (processEmail id s).2.
Proof.
  change (pres grows (processEmail id) s). unfold processEmail.
  pres_step; [pres_step |].
  pres_step; try (apply pres_ret; tc_solve). apply processFetched_grows.
Qed.

(** X9. Processing never forgets: across a whole cycle, and across one
    observation of the Pattern Learner, no counter of any (domain, label)
    pair decreases, and every suggestion stored before is still stored,
    unchanged and in the same position; new suggestions are only
    appended. *)
Theorem processing_grows (s : State W) :
  (forall m ids, grows s (analyzeForPatterns m ids s).2)
  /\ grows s (processUnreadEmails s).2.
Proof.
  split; [intros; apply analyzeForPatterns_grows |].
  change (pres grows processUnreadEmails s).
  unfold processUnreadEmails, loadSettings, recordTimestamp.
  repeat pres_step;
    try (apply getLabels_pres; tc_solve);
    try (apply forEach_label_pres; [tc_solve |];
         intros; apply processEmail_grows);
    try (by split).
  split; by destruct (sync_userSettings s).
Qed.

Lemma applyRules_no_match id m rs (s : State W) :
  Forall (fun rule => messageMatchesRule atob m rule = false) rs ->
  applyRules id m rs s = (None, s).
Proof.
  induction 1 as [|rule rest Hm _ IH]; [done |].
  by rewrite applyRules_cons, Hm.
Qed.

(** X10. A message that is not spam and that no rule matches is left
    untouched: processing it makes no request and changes nothing at
    all. *)
Theorem processFetched_untouched id m (s : State W) :
  isSpam (userSettings s) m = false ->
  Forall (fun rule => messageMatchesRule atob m rule = false)
    (rules (userSettings s)) ->
  processFetched id m s = (tt, s).
Proof.
  intros Hham Hrules. unfold processFetched.
  rewrite bind_eq, classify_eq, Hham, (applyRules_no_match _ _ _ _ Hrules).
  cbn [fst snd length Nat.ltb Nat.leb]. rewrite bind_eq. cbn [ret fst snd].
  by rewrite bind_eq.
Qed.

(** X11. Processing a message never writes the settings: the rule list
    (so also the [labelId] of the rule that matched), the spam
    configuration, the flags and the saved copy are as before.  After a
    whole cycle the settings are the ones loaded at its start, the
    completion timestamp aside. *)
Theorem processing_keeps_settings (s : State W) :
  (forall id, sameSettings s (processEmail id s).2)
  /\ sameConfig (loadSettings s).2 (processUnreadEmails s).2.
Proof.
  split; [intros id; apply (processEmail_pres (@sameSettings W)) |].
  unfold processUnreadEmails. rewrite (bind_eq loadSettings). cbv beta.
  set (s1 := (loadSettings s).2).
  change (pres sameConfig
            (run getLabels in
             let* data := call gmail_listUnread in
             match data with
             | ApiOk messages =>
                 run forEach processEmail (take 10 messages) in
                 recordTimestamp
             | ApiNull => recordTimestamp
             | ApiThrow => ret ()
             end) s1).
  unfold recordTimestamp.
  repeat pres_step;
    try (apply getLabels_pres; tc_solve);
    try (apply forEach_pres; [tc_solve |];
         intros; apply processEmail_pres; tc_solve);
    done.
Qed.

(** X12. With pattern detection switched off, processing a message
    changes no counter and stores no suggestion, whether or not a rule
    matched. *)
Theorem processFetched_detection_off id m (s : State W) :
  enablePatternDetection (userSettings s) = false ->
  nothingLearned s (processFetched id m s).2.
Proof.
  intros Hoff. change (pres nothingLearned (processFetched id m) s).
  unfold processFetched.
  pose proof (classify_rule_pres (@nothingLearned W) id m s) as Hc.
  apply pres_bind; [tc_solve | done | intros [labels applied] s1 Hs1].
  unfold pres in Hc. rewrite Hs1 in Hc. cbn [snd] in Hc.
  destruct Hc as (Hu & _).
  apply pres_bind; [tc_solve | | intros [] s2 Hs2].
  - destruct (0 <? length (labels, applied).1)%nat;
      [apply applyLabelsToMessage_pres; tc_solve | apply pres_ret; tc_solve].
  - assert (Hu2 : userSettings s2 = userSettings s1).
    { assert (Hk : pres sameStore
                     (if (0 <? length (labels, applied).1)%nat
                      then applyLabelsToMessage id (labels, applied).1 ["UNREAD"]
                      else ret ()) s1).
      { destruct (0 <? length (labels, applied).1)%nat;
          [apply applyLabelsToMessage_pres; tc_solve
          | apply pres_ret; tc_solve]. }
      unfold pres in Hk. rewrite Hs2 in Hk. cbn [snd] in Hk.
      by destruct Hk. }
    apply pres_get; try tc_solve. cbv beta.
    rewrite Hu2, Hu, Hoff, andb_false_r. apply pres_ret. tc_solve.
Qed.

End ProcessingFacts.

Lemma processFetched_untouched_witness :
  processFetched "m1" Scenario.bareSender
    (Scenario.initial
       (mkSettings [Scenario.invoiceRule] [] [] true 5 false true None)
       Scenario.writable)
  = (tt, Scenario.initial
           (mkSettings [Scenario.invoiceRule] [] [] true 5 false true None)
           Scenario.writable).
Proof.
  apply processFetched_untouched.
  - reflexivity.
  - repeat constructor.
Defined.

Lemma processFetched_detection_off_witness :
  nothingLearned
    (Scenario.initial
       (mkSettings [Scenario.invoiceRule] [] [] true 5 true false None)
       Scenario.writable)
    (processFetched "m1" Scenario.invoice
       (Scenario.initial
          (mkSettings [Scenario.invoiceRule] [] [] true 5 true false None)
          Scenario.writable)).2.
Proof. apply processFetched_detection_off. reflexivity. Defined.

(** ** Processing Cycle: the batch bound *)

Section BatchBound.
Context {RT : Runtime} {W : Type} `{B : Browser W}.
#[local] Existing Instance counting.

Lemma within_ret {A} (a : A) : within (W:=W) 0 (ret a).
Proof. intros s. simpl. lia. Qed.

Lemma within_bind {A C} n k (c : M (W * nat) A) (f : A -> M (W * nat) C) :
  within n c -> (forall a, within k (f a)) -> within (n + k) (bind c f).
Proof.
  intros Hc Hf s. rewrite bind_eq.
  specialize (Hc s). specialize (Hf (c s).1 (c s).2). lia.
Qed.

Lemma quiet_bind {A C} (c : M (W * nat) A) (f : A -> M (W * nat) C) :
  within 0 c -> (forall a, within 0 (f a)) -> within 0 (bind c f).
Proof. apply (within_bind 0 0). Qed.

Lemma quiet_get : within (W:=W) 0 get.
Proof. intros s. simpl. lia. Qed.

Lemma quiet_modify (f : State (W * nat) -> State (W * nat)) :
  (forall s, world (f s) = world s) -> within 0 (modify f).
Proof. intros Hf s. unfold fetches. simpl. rewrite Hf. lia. Qed.

Lemma quiet_call {A} (op : W * nat -> A * (W * nat)) :
  (forall w, (op w).2.2 = w.2) -> within 0 (call op).
Proof.
  intros Hop s. unfold fetches, call. specialize (Hop (world s)).
  destruct (op (world s)) as [a w]. simpl in *. lia.
Qed.

Ltac quiet_step :=
  lazymatch goal with
  | |- within 0 (bind _ _) => apply quiet_bind; [| intros ?]
  | |- within 0 (ret _) => apply within_ret
  | |- within 0 get => apply quiet_get
  | |- within 0 (modify _) => apply quiet_modify; intros; reflexivity
  | |- within 0 (call _) => apply quiet_call; intros; reflexivity
  | |- within 0 (match ?x with _ => _ end) => destruct x
  end.

Lemma getLabels_quiet : within 0 (getLabels (W:=W * nat)).
Proof. unfold getLabels. repeat quiet_step. Qed.

Lemma createLabelIfNeeded_quiet name :
  within 0 (createLabelIfNeeded (W:=W * nat) name).
Proof.
  unfold createLabelIfNeeded, postLabel.
  quiet_step; [apply getLabels_quiet |]. repeat quiet_step.
Qed.

Lemma applyRules_quiet id m rs : within 0 (applyRules (W:=W * nat) id m rs).
Proof.
  induction rs as [|rule rest IH]; simpl; [apply within_ret |].
  destruct (messageMatchesRule _ m rule); [|done].
  unfold resolveTarget.
  quiet_step; [repeat quiet_step; apply createLabelIfNeeded_quiet |].
  destruct a; [repeat quiet_step | done].
Qed.

Lemma processFetched_quiet id m : within 0 (processFetched (W:=W * nat) id m).
Proof.
  unfold processFetched, classify, applyLabelsToMessage, analyzeForPatterns.
  repeat quiet_step;
    try apply createLabelIfNeeded_quiet; try apply applyRules_quiet.
Qed.

Lemma processEmail_one id : within 1 (processEmail (W:=W * nat) id).
Proof.
  intros s. unfold processEmail. rewrite bind_eq.
  set (s1 := (call (gmail_getMessage id) s).2).
  assert (Hs1 : fetches s1 = S (fetches s)) by reflexivity.
  destruct (call (gmail_getMessage id) s).1 as [full| |]; simpl; try lia.
  pose proof (processFetched_quiet id full s1). lia.
Qed.

Lemma forEach_within {A} (f : A -> M (W * nat) unit) l :
  (forall x, within 1 (f x)) -> within (length l) (forEach f l).
Proof.
  intros Hf. induction l as [|x l IH]; [apply within_ret |].
  apply (within_bind 1 (length l)); [apply Hf | by intros _].
Qed.

(** X13. A processing cycle requests at most ten messages from the mail
    service, however many unread messages the service lists: what is
    beyond the tenth is left for a later cycle. *)
Theorem processUnreadEmails_batch (s : State (W * nat)) :
  (fetches s <= fetches (processUnreadEmails s).2 <= fetches s + 10)%nat.
Proof.
  assert (Hc : within 10 (processUnreadEmails (W:=W * nat))); [|apply Hc].
  unfold processUnreadEmails.
  apply (within_bind 0 10);
    [unfold loadSettings; apply quiet_modify;
     intros s0; by destruct (sync_userSettings s0) | intros _].
  apply (within_bind 0 10); [apply getLabels_quiet | intros _].
  apply (within_bind 0 10); [by apply quiet_call | intros data].
  assert (Hstamp : within (W:=W) 0 recordTimestamp).
  { unfold recordTimestamp. repeat quiet_step. }
  destruct data as [messages| |].
  - intros s0.
    pose proof (within_bind _ 0 _ (fun _ => recordTimestamp)
                  (forEach_within processEmail (take 10 messages)
                     processEmail_one) (fun _ => Hstamp) s0) as Hrun.
    rewrite length_take in Hrun. lia.
  - intros s0. specialize (Hstamp s0). lia.
  - intros s0. simpl. lia.
Qed.

End BatchBound.

(** With twelve unread messages listed, exactly ten are requested. *)
Example twelve_listed_ten_fetched :
  fetches (processUnreadEmails (H := counting Scenario.mailbox_browser)
             Scenario.crowded).2 = 10%nat.
Proof. vm_compute. reflexivity. Qed.

(** ** Settings: saving and loading *)

Section SettingsFacts.
Context {RT : Runtime} {W : Type} `{Browser W}.

Lemma state_eta (s : State W) :
  mkState (userSettings s) (gmailLabels s) (domainLabelCounts s)
    (suggestedLabels s) (messageRule s) (local_lastProcessedTimestamp s)
    (sync_userSettings s) (world s) = s.
Proof. by destruct s. Qed.

Lemma saved_reload (u : Settings) :
  mkSettings (sv_rules (settingsToSave u)) (sv_spamKeywords (settingsToSave u))
    (sv_spamSenderDomains (settingsToSave u))
    (sv_autoCreateLabels (settingsToSave u))
    (sv_processingInterval (settingsToSave u))
    (sv_enableSpamDetection (settingsToSave u))
    (sv_enablePatternDetection (settingsToSave u))
    (lastProcessedTimestamp u) = u.
Proof. by destruct u. Qed.

Lemma loadSettings_after_save (s : State W) :
  (loadSettings (saveSettings s).2).2 = (saveSettings s).2.
Proof.
  unfold loadSettings, saveSettings, modify.
  cbn [snd sync_userSettings set_sync_userSettings userSettings].
  unfold set_userSettings.
  cbn [userSettings gmailLabels domainLabelCounts suggestedLabels messageRule
       local_lastProcessedTimestamp sync_userSettings world
       set_sync_userSettings].
  by rewrite saved_reload.
Qed.

(** X14. Saving and loading the settings round-trip.  Loading right
    after saving changes nothing, so what was saved is what a later cycle
    works with; loading never touches the completion timestamp, which is
    not part of what is saved; and saving right after loading stored
    settings writes back exactly what was stored. *)
Theorem settings_round_trip (s : State W) :
  (loadSettings (saveSettings s).2).2 = (saveSettings s).2
  /\ lastProcessedTimestamp (userSettings (loadSettings s).2)
     = lastProcessedTimestamp (userSettings s)
  /\ (forall v, sync_userSettings s = Some v ->
        settingsToSave (userSettings (loadSettings s).2) = v
        /\ (saveSettings (loadSettings s).2).2 = (loadSettings s).2).
Proof.
  split; [apply loadSettings_after_save |]. split.
  - unfold loadSettings, modify. simpl. by destruct (sync_userSettings s).
  - intros v Hv. unfold loadSettings, saveSettings, modify. simpl.
    rewrite Hv. simpl. split; [by destruct v |].
    unfold set_sync_userSettings, set_userSettings. simpl.
    rewrite Hv. f_equal. by destruct v.
Qed.

(** X15. What a [saveSettings] message sets is what a following
    [getSettings] message answers: every key the message carries takes
    its value, every other key keeps the one in memory, the merged
    settings are what is saved, and reloading them loses nothing. *)
Theorem saved_settings_are_served (patch : SettingsPatch) (s : State W) :
  let merged := mergeSettings (userSettings s) patch in
  let s1 := (saveSettingsHandler patch s).2 in
  (saveSettingsHandler patch s).1 = true
  /\ userSettings s1 = merged
  /\ sync_userSettings s1 = Some (settingsToSave merged)
  /\ (getSettingsHandler s1).1.1 = merged
  /\ userSettings (getSettingsHandler s1).2 = merged.
Proof.
  intros merged s1.
  assert (Hs1 : s1 = (saveSettings (set_userSettings merged s)).2).
  { subst s1. unfold saveSettingsHandler. by rewrite !bind_eq. }
  assert (Hload : (loadSettings s1).2 = s1)
    by (rewrite Hs1; apply loadSettings_after_save).
  assert (Hu : userSettings s1 = merged) by (by rewrite Hs1).
  split; [by unfold saveSettingsHandler; rewrite !bind_eq |].
  split; [done |]. split; [by rewrite Hs1 |].
  unfold getSettingsHandler. rewrite !bind_eq. cbn [get ret fst snd].
  rewrite Hload. split; [done |].
  pose proof (getLabels_pres (@sameStore W) s1) as (Hsame & _).
  by rewrite Hsame.
Qed.

End SettingsFacts.

(** ** Suggestion Store: the two ways to decide, and what a decision
    leaves alone *)

Section DecisionFacts.
Context {RT : Runtime} {W : Type} `{Browser W}.

Lemma set_suggestedLabels_same (s : State W) :
  set_suggestedLabels (suggestedLabels s) s = s.
Proof. by destruct s. Qed.

Lemma onButtonClicked_eq id b (s : State W) :
  onButtonClicked id b s =
  match findIndex (hasId id) (suggestedLabels s) with
  | Some i =>
      match suggestedLabels s !! i with
      | Some g =>
          let r := match b with
                   | 0%nat => approve g
                   | 1%nat => ret (set_status rejected g)
                   | _ => ret g
                   end s in
          (tt, set_suggestedLabels (<[i := r.1]> (suggestedLabels s)) r.2)
      | None => (tt, s)
      end
  | None => (tt, s)
  end.
Proof.
  unfold onButtonClicked. rewrite bind_eq. cbn [get fst snd].
  destruct (findIndex (hasId id) (suggestedLabels s)) as [i|]; [|done].
  destruct (suggestedLabels s !! i) as [g|]; [|done].
  by rewrite bind_eq.
Qed.

(** X16. The notification buttons decide as the message handlers do:
    [Approve & Create] leaves the state [approveSuggestion] leaves,
    [Reject] the state [rejectSuggestion] leaves, and any other button
    index changes nothing. *)
Theorem onButtonClicked_agrees (id : string) (s : State W) :
  (onButtonClicked id 0 s).2 = (approveSuggestion id s).2
  /\ (onButtonClicked id 1 s).2 = (rejectSuggestion id s).2
  /\ forall b, (onButtonClicked id (S (S b)) s).2 = s.
Proof.
  rewrite !onButtonClicked_eq, rejectSuggestion_eq.
  destruct (findIndex (hasId id) (suggestedLabels s)) as [i|] eqn:Hf.
  - destruct (findIndex_Some _ _ _ Hf) as (g & Hi & _).
    rewrite (approveSuggestion_eq id i g s Hf Hi), (alter_found _ _ _ _ Hi), Hi.
    repeat split; try done.
    intros b. rewrite onButtonClicked_eq, Hf, Hi. cbn [ret fst snd].
    by rewrite (list_insert_id _ _ _ Hi), set_suggestedLabels_same.
  - rewrite (approveSuggestion_unknown id s Hf).
    repeat split; try done. intros b. by rewrite onButtonClicked_eq, Hf.
Qed.

(** The suggestions stored after a decision on [id]. *)
Lemma decided_list id (s : State W) :
  forall l', l' = suggestedLabels (approveSuggestion id s).2
             \/ l' = suggestedLabels (rejectSuggestion id s).2 ->
  l' = suggestedLabels s
  \/ exists i g g', findIndex (hasId id) (suggestedLabels s) = Some i
       /\ suggestedLabels s !! i = Some g
       /\ l' = <[i := g']> (suggestedLabels s)
       /\ sg_id g' = sg_id g /\ sg_name g' = sg_name g.
Proof.
  intros l' Hl'.
  destruct (findIndex (hasId id) (suggestedLabels s)) as [i|] eqn:Hf.
  - destruct (findIndex_Some _ _ _ Hf) as (g & Hi & _). right.
    destruct Hl' as [-> | ->].
    + exists i, g, (approve g s).1.
      rewrite (approveSuggestion_eq id i g s Hf Hi).
      destruct (approve_result g s) as (Hn & Hid & _). by repeat split.
    + exists i, g, (set_status rejected g).
      rewrite rejectSuggestion_eq, Hf, (alter_found _ _ _ _ Hi).
      by repeat split.
  - left. destruct Hl' as [-> | ->].
    + by rewrite (approveSuggestion_unknown id s Hf).
    + by rewrite rejectSuggestion_eq, Hf.
Qed.

(** X17. A decision keeps the history: after [approveSuggestion] or
    [rejectSuggestion] the store has as many suggestions as before, with
    the same ids and the same names in the same order, and every entry
    other than the first one carrying the given id is exactly as it
    was. *)
Theorem decision_keeps_history (id : string) (s : State W) (l' : list Suggestion) :
  l' = suggestedLabels (approveSuggestion id s).2
  \/ l' = suggestedLabels (rejectSuggestion id s).2 ->
  length l' = length (suggestedLabels s)
  /\ sg_id <$> l' = sg_id <$> suggestedLabels s
  /\ sg_name <$> l' = sg_name <$> suggestedLabels s
  /\ forall j, findIndex (hasId id) (suggestedLabels s) <> Some j ->
       l' !! j = suggestedLabels s !! j.
Proof.
  intros Hl'.
  destruct (decided_list id s l' Hl')
    as [-> | (i & g & g' & Hf & Hi & -> & Hid & Hn)]; [done |].
  split; [apply length_insert |]. split; [|split].
  - rewrite list_fmap_insert, Hid. apply list_insert_id.
    by rewrite list_lookup_fmap, Hi.
  - rewrite list_fmap_insert, Hn. apply list_insert_id.
    by rewrite list_lookup_fmap, Hi.
  - intros j Hj. apply list_lookup_insert_ne. congruence.
Qed.

(** X18. An approval extends the rule list only when it obtained the
    label and [autoCreateLabels] is set.  With the flag off the settings
    and their saved copy are as before; when the label cannot be
    obtained they are as before too and the suggestion is stored as
    [failed_creation] with no label id recorded. *)
Theorem approval_without_rule (id : string) (s : State W) :
  let s' := (approveSuggestion id s).2 in
  (autoCreateLabels (userSettings s) = false -> sameSettings s s')
  /\ forall i g,
       findIndex (hasId id) (suggestedLabels s) = Some i ->
       suggestedLabels s !! i = Some g ->
       (createLabelIfNeeded (sg_name g) s).1 = None ->
       sameSettings s s'
       /\ suggestedLabels s' = <[i := set_status failed_creation g]>
                                 (suggestedLabels s).
Proof.
  intros s'. subst s'.
  destruct (findIndex (hasId id) (suggestedLabels s)) as [i|] eqn:Hf.
  - destruct (findIndex_Some _ _ _ Hf) as (g & Hi & _).
    rewrite (approveSuggestion_eq id i g s Hf Hi), approve_eq.
    pose proof (createLabelIfNeeded_pres (@sameStore W) (sg_name g) s)
      as Hsame.
    unfold pres in Hsame.
    destruct (createLabelIfNeeded (sg_name g) s) as [[l|] s1] eqn:Hc;
      cbn [fst snd] in *; destruct Hsame as (Hu & _ & _ & _ & _ & Hy).
    + split.
      * intros Hoff. rewrite Hu, Hoff. by split.
      * intros i' g' [= <-] Hg' Hnone.
        assert (g' = g) as -> by congruence. by rewrite Hc in Hnone.
    + split.
      * intros _. by split.
      * intros i' g' [= <-] Hg' _.
        assert (g' = g) as -> by congruence. by split.
  - rewrite (approveSuggestion_unknown id s Hf). split; [by split |].
    by intros i g [=].
Qed.

End DecisionFacts.

Lemma decision_keeps_history_witness :
  sg_id <$> suggestedLabels (rejectSuggestion "b" Scenario.decidedStore).2
  = ["a"; "b"; "c"].
Proof.
  destruct (decision_keeps_history "b" Scenario.decidedStore
              (suggestedLabels (rejectSuggestion "b" Scenario.decidedStore).2)
              (or_intror eq_refl)) as (_ & Hids & _).
  rewrite Hids. reflexivity.
Defined.

(** ** What is asked of the mail service *)

Section RequestFacts.
Context {RT : Runtime} {W : Type} `{B : Browser W}.
#[local] Existing Instance tracing.

Section Asks.
Context (ok : Event -> Prop).

Lemma asks_refl (s : State (W * list Event)) : asksOnly ok s s.
Proof. exists []. by rewrite app_nil_r. Qed.

Lemma asks_trans (s1 s2 s3 : State (W * list Event)) :
  asksOnly ok s1 s2 -> asksOnly ok s2 s3 -> asksOnly ok s1 s3.
Proof.
  intros (e1 & H1 & F1) (e2 & H2 & F2). exists (e1 ++ e2). split.
  - by rewrite H2, H1, app_assoc.
  - by apply Forall_app.
Qed.

Lemma asks_quiet (s s' : State (W * list Event)) : world s' = world s -> asksOnly ok s s'.
Proof. intros Hw. exists []. unfold requests. by rewrite Hw, app_nil_r. Qed.

Lemma asks_event ev w (s : State (W * list Event)) :
  ok ev -> asksOnly ok s (set_world (w, requests s ++ [ev]) s).
Proof. intros Hev. exists [ev]. split; [done | by constructor]. Qed.

Lemma asks_ret {A} (a : A) (s : State (W * list Event)) : pres (asksOnly ok) (ret a) s.
Proof. apply asks_refl. Qed.

Lemma asks_bind {A C} (c : M _ A) (k : A -> M _ C) (s : State (W * list Event)) :
  pres (asksOnly ok) c s ->
  (forall a s', c s = (a, s') -> pres (asksOnly ok) (k a) s') ->
  pres (asksOnly ok) (bind c k) s.
Proof.
  unfold pres, bind. intros Hc Hk. destruct (c s) as [a s'] eqn:E.
  eapply asks_trans; [exact Hc | by apply Hk].
Qed.

Lemma asks_get {C} (k : State (W * list Event) -> M _ C) (s : State (W * list Event)) :
  pres (asksOnly ok) (k s) s -> pres (asksOnly ok) (bind get k) s.
Proof. done. Qed.

Lemma asks_modify (f : State (W * list Event) -> State (W * list Event)) (s : State (W * list Event)) :
  world (f s) = world s -> pres (asksOnly ok) (modify f) s.
Proof. intros Hf. by apply asks_quiet. Qed.

Lemma asks_weaken (ok' : Event -> Prop) (s s' : State (W * list Event)) :
  (forall ev, ok ev -> ok' ev) -> asksOnly ok s s' -> asksOnly ok' s s'.
Proof.
  intros Himp (evs & Hs & Hall). exists evs. split; [done |].
  by eapply Forall_impl.
Qed.
End Asks.

Ltac asks_step :=
  lazymatch goal with
  | |- pres _ (bind get _) _ => apply asks_get; cbv beta
  | |- pres _ (bind _ _) _ => apply asks_bind; [| intros ? ? ?]
  | |- pres _ (ret _) _ => apply asks_ret
  | |- pres _ (modify _) _ => apply asks_modify; reflexivity
  | |- pres _ (call _) _ => apply asks_event
  | |- pres _ (match ?x with _ => _ end) _ => destruct x eqn:?
  end.

Lemma getLabels_asks ok (s : State (W * list Event)) :
  ok EvListLabels -> pres (asksOnly ok) getLabels s.
Proof. intros Hl. unfold getLabels. repeat asks_step; done. Qed.

Lemma createLabelIfNeeded_asks ok name (s : State (W * list Event)) :
  ok EvListLabels -> ok (EvCreateLabel name) ->
  pres (asksOnly ok) (createLabelIfNeeded name) s.
Proof.
  intros Hl Hc. unfold createLabelIfNeeded, postLabel.
  asks_step; [by apply getLabels_asks |]. repeat asks_step; done.
Qed.

Lemma applyRules_asks ok id m rs (s : State (W * list Event)) :
  ok EvListLabels ->
  (forall rule, In rule rs -> ok (EvCreateLabel (r_labelName rule))) ->
  pres (asksOnly ok) (applyRules id m rs) s.
Proof.
  intros Hl. revert s. induction rs as [|rule rest IH]; intros s Hc.
  - apply asks_ret.
  - simpl. destruct (messageMatchesRule _ m rule);
      [|apply IH; intros; apply Hc; by right].
    apply asks_bind.
    + unfold resolveTarget.
      repeat asks_step; apply createLabelIfNeeded_asks;
        try done; apply Hc; by left.
    + intros [l|] s' _; [repeat asks_step |].
      apply IH. intros. apply Hc. by right.
Qed.

Lemma classify_asks id m (s : State (W * list Event)) :
  pres (asksOnly (okForMessage id (r_labelName <$> rules (userSettings s))))
    (classify id m) s.
Proof.
  unfold classify. asks_step. asks_step.
  - asks_step; [|repeat asks_step].
    apply createLabelIfNeeded_asks; [done | by left].
  - asks_step; [|repeat asks_step].
    apply applyRules_asks; [done |]. intros rule Hin. right.
    apply list_elem_of_In, list_elem_of_fmap. exists rule.
    split; [done | by apply list_elem_of_In].
Qed.

Lemma classify_labels id m (s : State (W * list Event)) :
  (length (classify id m s).1.1 <= 1)%nat.
Proof.
  rewrite classify_eq. destruct (isSpam (userSettings s) m).
  - by destruct (createLabelIfNeeded SPAM_LABEL_NAME s) as [[l|] s']; simpl; lia.
  - by destruct (applyRules id m (rules (userSettings s)) s) as [[l|] s'];
      simpl; lia.
Qed.

Lemma analyzeForPatterns_asks ok m ids (s : State (W * list Event)) :
  ok EvNow -> pres (asksOnly ok) (analyzeForPatterns m ids) s.
Proof.
  intros Hn. unfold analyzeForPatterns.
  destruct ids as [|i ids]; [apply asks_ret |]. repeat asks_step; done.
Qed.

Lemma processFetched_asks id m (s : State (W * list Event)) :
  pres (asksOnly (okForMessage id (r_labelName <$> rules (userSettings s))))
    (processFetched id m) s.
Proof.
  unfold processFetched.
  apply asks_bind; [apply classify_asks |].
  intros [labels applied] s1 Hc.
  pose proof (classify_labels id m s) as Hlen. rewrite Hc in Hlen.
  cbn [fst snd] in *.
  apply asks_bind.
  - destruct labels as [|l [|l' labels]]; simpl in Hlen; try lia.
    + apply asks_ret.
    + simpl. unfold applyLabelsToMessage. repeat asks_step. by repeat split.
  - intros _ s2 _. asks_step. asks_step; [|apply asks_ret].
    by apply analyzeForPatterns_asks.
Qed.

(** X19. Processing one message asks the mail service only for what
    that message needs: that message itself, the label list, a new label
    named [ExtensionSpam] or after the [labelName] of a rule, one change
    of that message that adds a single label and removes [UNREAD], and the
    time.  It never lists or fetches other messages, never changes another
    message and never removes any label but [UNREAD]. *)
Theorem processEmail_requests (id : string) (s : State (W * list Event)) :
  asksOnly (okForMessage id (r_labelName <$> rules (userSettings s)))
    s (processEmail id s).2.
Proof.
  change (pres (asksOnly (okForMessage id
                            (r_labelName <$> rules (userSettings s))))
            (processEmail id) s).
  unfold processEmail. apply asks_bind; [by apply asks_event |].
  intros r s1 Hcall.
  assert (Hu : userSettings s1 = userSettings s).
  { unfold call in Hcall. destruct (gmail_getMessage id (world s)).
    by injection Hcall as _ <-. }
  destruct r as [full| |]; try apply asks_ret.
  rewrite <- Hu. apply processFetched_asks.
Qed.

Lemma approve_asks g (s : State (W * list Event)) :
  pres (asksOnly (fun ev => match ev with
                            | EvListLabels => True
                            | EvCreateLabel n => n = sg_name g
                            | _ => False
                            end)) (approve g) s.
Proof.
  unfold approve, saveSettings.
  asks_step; [by apply createLabelIfNeeded_asks |]. repeat asks_step.
Qed.

(** X20. Deciding a suggestion never touches a message.  A rejection asks
    nothing of the mail service; an approval only lists the labels and
    creates at most labels named after a stored suggestion with the given
    id. *)
Theorem decision_requests (id : string) (s : State (W * list Event)) :
  requests (rejectSuggestion id s).2 = requests s
  /\ asksOnly (okForApproval id (suggestedLabels s))
       s (approveSuggestion id s).2.
Proof.
  split.
  - rewrite rejectSuggestion_eq.
    by destruct (findIndex (hasId id) (suggestedLabels s)).
  - destruct (findIndex (hasId id) (suggestedLabels s)) as [i|] eqn:Hf.
    + destruct (findIndex_Some _ _ _ Hf) as (g & Hi & Hg).
      rewrite (approveSuggestion_eq id i g s Hf Hi).
      pose proof (approve_asks g s) as (evs & Hreq & Hall).
      exists evs. split; [done |].
      eapply Forall_impl; [exact Hall |].
      intros [| n | | | | |]; simpl; try done.
      intros ->. exists g. split; [|split; [by apply String.eqb_eq | done]].
      apply list_elem_of_In. by eapply list_elem_of_lookup_2.
    + rewrite (approveSuggestion_unknown id s Hf). apply asks_refl.
Qed.

End RequestFacts.

(** ** Rule Matcher: the text part *)

Section MatcherFacts.
Context {RT : Runtime}.
Implicit Types (s t : string) (c d e : ascii).

Lemma replaceAll_contains c d e s :
  contains (replaceAll c d s) (String e "") ->
  e = d \/ (e <> c /\ contains s (String e "")).
Proof.
  induction s as [|a s IH]; simpl.
  - intros Hc. by apply contains_char_nil in Hc.
  - rewrite !contains_char_cons. intros [He | Hc].
    + destruct (Ascii.eqb_spec a c) as [->|Hne]; [by left |].
      right. split; [congruence | by left].
    + destruct (IH Hc) as [-> | [Hne Hs]]; [by left |].
      right. split; [done | by right].
Qed.

Lemma base64url_translated s :
  ~ contains (replaceAll "_" "/" (replaceAll "-" "+" s)) "-"
  /\ ~ contains (replaceAll "_" "/" (replaceAll "-" "+" s)) "_".
Proof.
  split.
  - intros [He | [_ [He | [Hne _]]%replaceAll_contains]]%replaceAll_contains;
      done.
  - intros [He | [Hne _]]%replaceAll_contains; done.
Qed.

(** X21. The text part is handed to [atob] in the standard base64
    alphabet: the matcher never passes it a string containing [-] or [_],
    so two decoders that agree on such strings give the same text snippet
    and the same verdict for every message and rule. *)
Theorem messageMatchesRule_standard_alphabet
    (decode decode' : string -> option string) (m : Message) (rule : Rule) :
  (forall x, ~ contains x "-" -> ~ contains x "_" -> decode x = decode' x) ->
  bodySnippet decode m = bodySnippet decode' m
  /\ messageMatchesRule decode m rule = messageMatchesRule decode' m rule.
Proof.
  intros Hagree.
  assert (Hbody : bodySnippet decode m = bodySnippet decode' m).
  { unfold bodySnippet. destruct (msg_parts m) as [ps|]; [|done].
    destruct (find isTextPart ps) as [p|]; [|done].
    destruct (base64url_translated (default "" (body_data p))) as [H1 H2].
    by rewrite (Hagree _ H1 H2). }
  split; [done |]. unfold messageMatchesRule. by rewrite Hbody.
Qed.

End MatcherFacts.

Lemma messageMatchesRule_standard_alphabet_witness :
  messageMatchesRule (fun _ => None) Scenario.invoice Scenario.invoiceRule
  = messageMatchesRule
      (fun x => if includes x "-" then Some "invoice" else None)
      Scenario.invoice Scenario.invoiceRule.
Proof.
  apply messageMatchesRule_standard_alphabet.
  intros x Hx%includes_false _. by rewrite Hx.
Defined.
